(** * mrujs: the plugin lifecycle and DOM-change dispatch core

    A shallow embedding of [src/mrujs.ts]: the [Mrujs] constructor, the
    lifecycle functions [start], [stop], [restart], [connect] and
    [disconnect], the mutation fan-out [addedNodesCallback], and the
    registries behind [registerMimeTypes], [appendToQuerySelector] and
    [registerConfirm].

    The functions of the source communicate through the global
    [window.mrujs]; the embedding threads an explicit [World] holding the
    heap of Mrujs objects, the two globals [window.mrujs] and
    [window.Rails], the [pageshow] listener, the queue of pending
    [setTimeout] tasks and a log of the plugin hooks that were invoked. *)

From stdpp Require Import gmap strings list fin_maps.

Set Default Proof Using "Type".
Open Scope string_scope.
Open Scope list_scope.

(** ** Data model *)

(** DOM nodes, confirm callbacks and Mrujs objects are known by identity. *)
Abbreviation Node := nat.
Abbreviation Callback := nat.
Abbreviation Ref := nat.

(** A plugin is a capability object whose four hooks are all optional
    ([plugin.initialize?.()] and so on).  The hook bodies live in other
    modules; a plugin is described by its identity and by which hooks it
    defines, and an invocation is recorded in the world's call log. *)
Record Plugin := {
  plugin_id : nat;
  has_initialize : bool;
  has_connect : bool;
  has_disconnect : bool;
  has_observerCallback : bool
}.

(** One invocation of a plugin hook. *)
Inductive Call :=
| Initialize (p : Plugin)
| Connect (p : Plugin)
| Disconnect (p : Plugin)
| ObserverCallback (p : Plugin) (addedNodes : list Node).

Global Instance Plugin_eq_dec : EqDecision Plugin.
Proof. solve_decision. Defined.

Global Instance Call_eq_dec : EqDecision Call.
Proof. solve_decision. Defined.

(** An entry of the selector map.  Either string may be missing on the
    object, in which case reading it yields [undefined]. *)
Record SelectorInterface := {
  selector : option string;
  exclude : option string
}.

(** String coercion of a possibly [undefined] string, as performed by
    [+=] on strings and by template literals. *)
Definition js_string (v : option string) : string :=
  match v with
  | Some s => s
  | None => "undefined"
  end.

Record MrujsConfigInterface := {
  cfg_maskLinkMethods : bool;
  cfg_querySelectors : gmap string SelectorInterface;
  cfg_mimeTypes : gmap string string;
  cfg_plugins : list Plugin
}.

(** [Partial<MrujsConfigInterface>]: every key may be absent. *)
Record PartialConfig := {
  opt_maskLinkMethods : option bool;
  opt_querySelectors : option (gmap string SelectorInterface);
  opt_mimeTypes : option (gmap string string);
  opt_plugins : option (list Plugin)
}.

Definition empty_config : PartialConfig :=
  {| opt_maskLinkMethods := None; opt_querySelectors := None;
     opt_mimeTypes := None; opt_plugins := None |}.

(** [{ ...base, ...over }] on configurations: a key of [over] wins. *)
Definition spread_config (base : MrujsConfigInterface) (over : PartialConfig)
  : MrujsConfigInterface :=
  {| cfg_maskLinkMethods := default (cfg_maskLinkMethods base) (opt_maskLinkMethods over);
     cfg_querySelectors := default (cfg_querySelectors base) (opt_querySelectors over);
     cfg_mimeTypes := default (cfg_mimeTypes base) (opt_mimeTypes over);
     cfg_plugins := default (cfg_plugins base) (opt_plugins over) |}.

(** The fields of an Mrujs object that the lifecycle core reads or writes.
    [confirm_callbacks] is [confirmClass.callbacks], the array owned by the
    confirm plugin ([None] when that object carries no such array). *)
Record MrujsInterface := {
  connected : bool;
  corePlugins : list Plugin;
  plugins : list Plugin;
  allPlugins : list Plugin;
  config : MrujsConfigInterface;
  confirm_callbacks : option (list Callback)
}.

(** The two getters installed by [Object.defineProperties]. *)
Definition querySelectors (o : MrujsInterface) : gmap string SelectorInterface :=
  cfg_querySelectors (config o).

Definition mimeTypes (o : MrujsInterface) : gmap string string :=
  cfg_mimeTypes (config o).

Definition set_connected (b : bool) (o : MrujsInterface) : MrujsInterface :=
  {| connected := b; corePlugins := corePlugins o; plugins := plugins o;
     allPlugins := allPlugins o; config := config o;
     confirm_callbacks := confirm_callbacks o |}.

Definition set_querySelectors (qs : gmap string SelectorInterface)
    (o : MrujsInterface) : MrujsInterface :=
  {| connected := connected o; corePlugins := corePlugins o; plugins := plugins o;
     allPlugins := allPlugins o;
     config := {| cfg_maskLinkMethods := cfg_maskLinkMethods (config o);
                  cfg_querySelectors := qs;
                  cfg_mimeTypes := cfg_mimeTypes (config o);
                  cfg_plugins := cfg_plugins (config o) |};
     confirm_callbacks := confirm_callbacks o |}.

Definition set_mimeTypes (ms : gmap string string)
    (o : MrujsInterface) : MrujsInterface :=
  {| connected := connected o; corePlugins := corePlugins o; plugins := plugins o;
     allPlugins := allPlugins o;
     config := {| cfg_maskLinkMethods := cfg_maskLinkMethods (config o);
                  cfg_querySelectors := cfg_querySelectors (config o);
                  cfg_mimeTypes := ms;
                  cfg_plugins := cfg_plugins (config o) |};
     confirm_callbacks := confirm_callbacks o |}.

Definition set_confirm_callbacks (cs : option (list Callback))
    (o : MrujsInterface) : MrujsInterface :=
  {| connected := connected o; corePlugins := corePlugins o; plugins := plugins o;
     allPlugins := allPlugins o; config := config o;
     confirm_callbacks := cs |}.

(** ** The world *)

Record World := {
  heap : gmap nat MrujsInterface;   (* the Mrujs objects, by reference *)
  window_mrujs : option Ref;        (* window.mrujs, initially undefined *)
  window_Rails : option Ref;        (* window.Rails *)
  pageshow : bool;                  (* is reEnableDisabledElements listening? *)
  calls : list Call;                (* plugin hooks invoked so far, oldest first *)
  sweeps : list string;             (* selectors handed to querySelectorAll *)
  timeouts : list (list Node);      (* pending setTimeout tasks, oldest first;
                                       each closure captured its addedNodes *)
  valid_selector : string -> bool   (* the selectors the document's
                                       querySelectorAll parses; on any other
                                       it throws a SyntaxError *)
}.

Definition set_heap (h : gmap nat MrujsInterface) (w : World) : World :=
  {| valid_selector := valid_selector w; heap := h; window_mrujs := window_mrujs w; window_Rails := window_Rails w;
     pageshow := pageshow w; calls := calls w; sweeps := sweeps w;
     timeouts := timeouts w |}.

Definition set_window (r : Ref) (w : World) : World :=
  {| valid_selector := valid_selector w; heap := heap w; window_mrujs := Some r; window_Rails := Some r;
     pageshow := pageshow w; calls := calls w; sweeps := sweeps w;
     timeouts := timeouts w |}.

Definition set_pageshow (b : bool) (w : World) : World :=
  {| valid_selector := valid_selector w; heap := heap w; window_mrujs := window_mrujs w; window_Rails := window_Rails w;
     pageshow := b; calls := calls w; sweeps := sweeps w;
     timeouts := timeouts w |}.

Definition set_calls (cs : list Call) (w : World) : World :=
  {| valid_selector := valid_selector w; heap := heap w; window_mrujs := window_mrujs w; window_Rails := window_Rails w;
     pageshow := pageshow w; calls := cs; sweeps := sweeps w;
     timeouts := timeouts w |}.

Definition set_sweeps (ss : list string) (w : World) : World :=
  {| valid_selector := valid_selector w; heap := heap w; window_mrujs := window_mrujs w; window_Rails := window_Rails w;
     pageshow := pageshow w; calls := calls w; sweeps := ss;
     timeouts := timeouts w |}.

Definition set_timeouts (ts : list (list Node)) (w : World) : World :=
  {| valid_selector := valid_selector w; heap := heap w; window_mrujs := window_mrujs w; window_Rails := window_Rails w;
     pageshow := pageshow w; calls := calls w; sweeps := sweeps w;
     timeouts := ts |}.

(** ** Computations that may throw *)

Inductive Error := TypeError | SyntaxError.

(** A JavaScript completion: a value or a thrown error, with the world as
    the computation left it (effects before a throw are kept). *)
Inductive Completion (A : Type) :=
| Normal (a : A) (w : World)
| Throw (e : Error) (w : World).
Arguments Normal {A} a w.
Arguments Throw {A} e w.

Definition M (A : Type) : Type := World -> Completion A.

Definition ret {A} (a : A) : M A := fun w => Normal a w.

Definition bind {A B} (m : M A) (k : A -> M B) : M B := fun w =>
  match m w with
  | Normal a w' => k a w'
  | Throw e w' => Throw e w'
  end.

Definition throw {A} (e : Error) : M A := fun w => Throw e w.

(** An effect that cannot fail. *)
Definition effect (f : World -> World) : M unit := fun w => Normal tt (f w).

Notation "'let*' x ':=' m 'in' k" := (bind m (fun x => k))
  (at level 10, x pattern, m at level 100, k at level 200).
Notation "m ';;' k" := (bind m (fun _ => k))
  (at level 100, k at level 200, right associativity).

(** The world a completion ended in, and whether it ended normally. *)
Definition world_of {A} (c : Completion A) : World :=
  match c with Normal _ w => w | Throw _ w => w end.

Definition returned {A} (c : Completion A) : bool :=
  match c with Normal _ _ => true | Throw _ _ => false end.

(** Reading [window.mrujs.<property>]: a [TypeError] when the global is
    undefined.  The value is the reference together with the object. *)
Definition mrujs : M (Ref * MrujsInterface) := fun w =>
  match window_mrujs w with
  | Some r =>
      match heap w !! r with
      | Some o => Normal (r, o) w
      | None => Throw TypeError w
      end
  | None => Throw TypeError w
  end.

(** Writing the object behind a reference. *)
Definition store (r : Ref) (o : MrujsInterface) : M unit :=
  effect (fun w => set_heap (<[r := o]> (heap w)) w).

(** [plugin.hook?.()]: invoked, and logged, only when the plugin defines it. *)
Definition call_hook (has : Plugin -> bool) (c : Plugin -> Call) (p : Plugin)
  : M unit :=
  if has p then effect (fun w => set_calls (calls w ++ [c p]) w) else ret tt.

(** A loop over an array, one element after the other. *)
Fixpoint for_of {A} (l : list A) (body : A -> M unit) : M unit :=
  match l with
  | [] => ret tt
  | x :: l' => body x ;; for_of l' body
  end.

(** [for (let i = 0; i < allPlugins.length; i++) allPlugins[i].hook?.()].
    The hooks are doubles that leave the registry alone, so the array is
    read once. *)
Definition for_each_plugin (has : Plugin -> bool) (c : Plugin -> Call)
    (ps : list Plugin) : M unit :=
  for_of ps (call_hook has c).

(** ** Lifecycle *)

(** [document.querySelectorAll(selectors)]: a [SyntaxError] on a selector
    the document does not parse; otherwise the sweep is recorded by its
    selector (enabling the matched elements is an effect on the DOM). *)
Definition querySelectorAll (selectors : string) : M unit := fun w =>
  if valid_selector w selectors
  then Normal tt (set_sweeps (sweeps w ++ [selectors]) w)
  else Throw SyntaxError w.

(** [reEnableDisabledElements]: destructures [formEnableSelector] and
    [linkDisableSelector] out of [window.mrujs.querySelectors], reads the
    [selector] of each (a [TypeError] on a missing entry) and sweeps the
    document with the joined selector. *)
Definition reEnableDisabledElements : M unit :=
  let* (_, o) := mrujs in
  match querySelectors o !! "formEnableSelector",
        querySelectors o !! "linkDisableSelector" with
  | Some formEnableSelector, Some linkDisableSelector =>
      querySelectorAll (js_string (selector formEnableSelector) +:+ ", " +:+
                        js_string (selector linkDisableSelector))
  | _, _ => throw TypeError
  end.

Definition connect : M unit :=
  reEnableDisabledElements ;;
  effect (set_pageshow true) ;;
  let* (_, o) := mrujs in
  for_each_plugin has_connect Connect (allPlugins o) ;;
  let* (r, o) := mrujs in
  store r (set_connected true o).

Definition disconnect : M unit :=
  effect (set_pageshow false) ;;
  let* (_, o) := mrujs in
  for_each_plugin has_disconnect Disconnect (allPlugins o) ;;
  let* (r, o) := mrujs in
  store r (set_connected false o).

(** [start] is a method: [this] is the object it is called on.  A [this]
    that is no object makes [window.mrujs.connected] a [TypeError]. *)
Definition start (this : Ref) (cfg : PartialConfig) : M Ref :=
  effect (set_window this) ;;
  let* (r, o) := mrujs in
  if connected o then ret r
  else
    let config' := spread_config (config o) cfg in
    let o' := {| connected := connected o;
                 corePlugins := corePlugins o;
                 plugins := cfg_plugins config';
                 allPlugins := corePlugins o ++ cfg_plugins config';
                 config := config';
                 confirm_callbacks := confirm_callbacks o |} in
    store this o' ;;
    for_each_plugin has_initialize Initialize (allPlugins o') ;;
    connect ;;
    ret this.

Definition stop : M unit := disconnect.

Definition restart : M unit := disconnect ;; connect.

(** ** Construction *)

Section Construction.

(** The plugin objects returned by the eleven factories that [Mrujs]
    calls, the [callbacks] array of the object [Confirm()] returns, and
    the two tables of defaults; all are defined in other modules. *)
Variables AddedNodesObserver RemoteWatcher ElementEnabler ElementDisabler
          DisabledElementChecker NavigationAdapter ClickHandler Confirm
          Csrf Method FormSubmitDispatcher : Plugin.
Variable Confirm_callbacks : option (list Callback).
Variable BASE_SELECTORS : gmap string SelectorInterface.
Variable BASE_ACCEPT_HEADERS : gmap string string.

(** [Mrujs(obj)]; of the partial object passed in only [obj.plugins]
    survives, every other field is assigned. *)
Definition Mrujs (obj_plugins : option (list Plugin)) : MrujsInterface :=
  let addedNodesObserver := AddedNodesObserver in
  let remoteWatcher := RemoteWatcher in
  let elementEnabler := ElementEnabler in
  let elementDisabler := ElementDisabler in
  let disabledElementChecker := DisabledElementChecker in
  let navigationAdapter := NavigationAdapter in
  let clickHandler := ClickHandler in
  let confirmClass := Confirm in
  let csrf := Csrf in
  let method := Method in
  let formSubmitDispatcher := FormSubmitDispatcher in
  (* Order matters here! *)
  let corePlugins :=
    [ addedNodesObserver;
      remoteWatcher;
      csrf;
      elementEnabler;
      clickHandler;
      disabledElementChecker;
      confirmClass;
      elementDisabler;
      method;
      formSubmitDispatcher;
      navigationAdapter ] in
  let plugins := default [] obj_plugins in
  let allPlugins := corePlugins ++ plugins in
  {| connected := false;
     corePlugins := corePlugins;
     plugins := plugins;
     allPlugins := allPlugins;
     config := {| cfg_maskLinkMethods := true;
                  cfg_querySelectors := BASE_SELECTORS;
                  cfg_mimeTypes := BASE_ACCEPT_HEADERS;
                  cfg_plugins := plugins |};
     confirm_callbacks := Confirm_callbacks |}.

End Construction.

(** ** Mutation dispatch *)

Inductive MutationRecordType := attributes | characterData | childList.

Record MutationRecord := {
  type : MutationRecordType;
  target : Node;
  addedNodes : list Node
}.

(** The node list computed for one record. *)
Definition addedNodes_of (mutation : MutationRecord) : list Node :=
  match type mutation with
  | attributes => [target mutation]
  | _ => addedNodes mutation
  end.

(** [window.setTimeout(closure, 0)]: the closure is queued, not run.  All
    closures of this module share their code and differ in the captured
    [addedNodes] only. *)
Definition setTimeout (captured : list Node) : M unit :=
  effect (fun w => set_timeouts (timeouts w ++ [captured]) w).

Definition addedNodesCallback (mutationList : list MutationRecord) : M unit :=
  for_of mutationList (fun mutation =>
    let addedNodes := addedNodes_of mutation in
    setTimeout addedNodes).

(** The body of the deferred closure; it reads [window.mrujs.allPlugins]
    when it runs. *)
Definition deferred (addedNodes : list Node) : M unit :=
  let* (_, o) := mrujs in
  for_each_plugin has_observerCallback
    (fun plugin => ObserverCallback plugin addedNodes) (allPlugins o).

(** One turn of the event loop: the oldest pending timeout, if any, runs. *)
Definition run_timeout : M bool := fun w =>
  match timeouts w with
  | [] => Normal false w
  | captured :: rest =>
      (effect (set_timeouts rest) ;; deferred captured ;; ret true) w
  end.

(** [n] turns of the event loop. *)
Fixpoint event_loop (n : nat) : M unit :=
  match n with
  | 0 => ret tt
  | S n' => run_timeout ;; event_loop n'
  end.

(** ** Registries *)

Record CustomMimeTypeInterface := {
  shortcut : string;
  header : string
}.

(** [customMimeTypes[shortcut] = header] on a plain object: the key
    ["__proto__"] reaches the setter of [Object.prototype], which ignores a
    string, so no key is created; any other key is set. *)
Definition assign (customMimeTypes : gmap string string) (shortcut header : string)
  : gmap string string :=
  if bool_decide (shortcut = "__proto__") then customMimeTypes
  else <[shortcut := header]> customMimeTypes.

Definition registerMimeTypes (mimeTypeList : list CustomMimeTypeInterface)
  : M (gmap string string) :=
  let customMimeTypes : gmap string string :=
    foldl (fun acc mimeType => assign acc (shortcut mimeType) (header mimeType))
          ∅ mimeTypeList in
  let* (r, o) := mrujs in
  (* { ...window.mrujs.config.mimeTypes, ...customMimeTypes } *)
  store r (set_mimeTypes (customMimeTypes ∪ mimeTypes o) o) ;;
  let* (_, o) := mrujs in
  ret (mimeTypes o).

(** [x += `, ${s}`] on a field that may be undefined. *)
Definition append_selector (old : option string) (s : string) : option string :=
  Some (js_string old +:+ ", " +:+ s).

(** The second argument has the shape of a selector entry: an optional
    [selector] and an optional [exclude].  The entry objects are held by
    value in the selector map of each Mrujs object, so the update is the one
    seen through [window.mrujs.querySelectors]; what an entry object shared
    with another Mrujs object shows there is outside the embedding. *)
Definition appendToQuerySelector (key : string) (arg : SelectorInterface) : M unit :=
  let* (r, o) := mrujs in
  match querySelectors o !! key with
  | Some entry =>
      let entry :=
        match selector arg with
        | Some s => {| selector := append_selector (selector entry) s;
                       exclude := exclude entry |}
        | None => entry
        end in
      let entry :=
        match exclude arg with
        | Some e => {| selector := selector entry;
                       exclude := append_selector (exclude entry) e |}
        | None => entry
        end in
      store r (set_querySelectors (<[key := entry]> (querySelectors o)) o)
  | None => ret tt
  end.

(** [window.mrujs?.confirmClass?.callbacks?.push(callback)] *)
Definition push_confirm_callback (callback : Callback) : M unit := fun w =>
  match window_mrujs w with
  | None => Normal tt w
  | Some r =>
      match heap w !! r with
      | None => Normal tt w
      | Some o =>
          match confirm_callbacks o with
          | None => Normal tt w
          | Some cs => store r (set_confirm_callbacks (Some (cs ++ [callback])) o) w
          end
      end
  end.

Definition registerConfirm (attribute : string) (callback : Callback) : M unit :=
  appendToQuerySelector "buttonClickSelector"
    {| selector := Some ("a[" +:+ attribute +:+ "]"); exclude := None |} ;;
  appendToQuerySelector "linkClickSelector"
    {| selector := Some ("button[" +:+ attribute +:+ "]:not([form])");
       exclude := None |} ;;
  push_confirm_callback callback.

(** ** A small page, for the examples

    Eleven doubles stand in for the core plugins, and two short tables for
    the default selectors and accept headers. *)

(** [s.includes(sub)] on strings. *)
Fixpoint contains (sub s : string) : bool :=
  if String.prefix sub s then true
  else match s with
       | EmptyString => false
       | String _ s' => contains sub s'
       end.

(** The sample document parses every selector but those with an attribute
    test that lacks its value, such as ["[data-x=]"]. *)
Definition sample_valid_selector (selectors : string) : bool :=
  negb (contains "=]" selectors).

Definition double (i : nat) : Plugin :=
  {| plugin_id := i; has_initialize := true; has_connect := true;
     has_disconnect := true; has_observerCallback := true |}.

Definition sample_selectors : gmap string SelectorInterface :=
  <["formEnableSelector" := {| selector := Some "form"; exclude := None |}]>
  (<["linkDisableSelector" := {| selector := Some "a[data-disable]"; exclude := None |}]>
  (<["linkClickSelector" := {| selector := Some "a[data-remote]";
                               exclude := Some "a[data-turbo]" |}]>
  (<["buttonClickSelector" := {| selector := Some "button[data-remote]";
                                 exclude := Some "form button" |}]> ∅))).

Definition sample_headers : gmap string string :=
  <["any" := "*/*"]> (<["json" := "application/json"]> ∅).

Definition sample_Mrujs (obj_plugins : option (list Plugin)) : MrujsInterface :=
  Mrujs (double 0) (double 1) (double 2) (double 3) (double 4) (double 5)
        (double 6) (double 7) (double 8) (double 9) (double 10)
        (Some []) sample_selectors sample_headers obj_plugins.

(** A freshly loaded page: one Mrujs object, at reference 0, nothing
    started yet. *)
Definition page (obj_plugins : option (list Plugin)) : World :=
  {| valid_selector := sample_valid_selector;
     heap := {[ 0 := sample_Mrujs obj_plugins ]};
     window_mrujs := None; window_Rails := None; pageshow := false;
     calls := []; sweeps := []; timeouts := [] |}.

(** Running one computation after another, whatever the first returned. *)
Definition after {A} (w : World) (m : M A) : World := world_of (m w).

(** A page whose object was created with one extension plugin. *)
Definition extension : Plugin := double 11.

Definition fresh_page : World := page (Some [extension]).

(** That page once [start()] has been called on its object, and the object
    as that call left it. *)
Definition started_page : World := after fresh_page (start 0 empty_config).

Definition started_Mrujs : MrujsInterface :=
  default (sample_Mrujs None) (heap started_page !! 0).

(** The same page started with a selector map that also holds an entry
    without strings, under the key ["bare"]. *)
Definition bare_config : PartialConfig :=
  {| opt_maskLinkMethods := None;
     opt_querySelectors :=
       Some (<["bare" := {| selector := None; exclude := None |}]> sample_selectors);
     opt_mimeTypes := None; opt_plugins := None |}.

Definition bare_page : World := after (page None) (start 0 bare_config).

Definition bare_Mrujs : MrujsInterface :=
  default (sample_Mrujs None) (heap bare_page !! 0).

(** The started page with a second Mrujs object, at reference 1, that was
    created but never started. *)
Definition two_objects : World :=
  set_heap (<[1 := sample_Mrujs None]> (heap started_page)) started_page.

(** ** Vocabulary of the statements *)

(** One pass of a hook over a registry: a call on every plugin that
    defines the hook, in registry order. *)
Definition pass (has : Plugin -> bool) (c : Plugin -> Call) (ps : list Plugin)
  : list Call :=
  c <$> List.filter has ps.

Definition initialize_pass := pass has_initialize Initialize.
Definition connect_pass := pass has_connect Connect.
Definition disconnect_pass := pass has_disconnect Disconnect.
Definition observer_pass (nodes : list Node) :=
  pass has_observerCallback (fun p => ObserverCallback p nodes).

Definition is_initialize (c : Call) : bool :=
  match c with Initialize _ => true | _ => false end.

(** The [initialize()] invocations in a call log. *)
Definition initialize_calls (cs : list Call) : list Call :=
  List.filter is_initialize cs.

(** How often a given call occurs in a log. *)
Definition times (c : Call) (cs : list Call) : nat :=
  length (List.filter (fun c' => bool_decide (c' = c)) cs).

(** The selector [reEnableDisabledElements] sweeps with, when both of its
    entries exist. *)
Definition sweep_selector (o : MrujsInterface) : option string :=
  match querySelectors o !! "formEnableSelector",
        querySelectors o !! "linkDisableSelector" with
  | Some f, Some l =>
      Some (js_string (selector f) +:+ ", " +:+ js_string (selector l))
  | _, _ => None
  end.

(** The world [connect] leaves behind when it completes. *)
Definition connected_world (r : Ref) (o : MrujsInterface) (s : string)
    (w : World) : World :=
  {| valid_selector := valid_selector w; heap := <[r := set_connected true o]> (heap w);
     window_mrujs := window_mrujs w; window_Rails := window_Rails w;
     pageshow := true;
     calls := calls w ++ connect_pass (allPlugins o);
     sweeps := sweeps w ++ [s];
     timeouts := timeouts w |}.

(** The world [disconnect] leaves behind when it completes. *)
Definition disconnected_world (r : Ref) (o : MrujsInterface) (w : World) : World :=
  {| valid_selector := valid_selector w; heap := <[r := set_connected false o]> (heap w);
     window_mrujs := window_mrujs w; window_Rails := window_Rails w;
     pageshow := false;
     calls := calls w ++ disconnect_pass (allPlugins o);
     sweeps := sweeps w;
     timeouts := timeouts w |}.

(** The lifecycle calls a page can make. *)
Inductive LifecycleCall :=
| Start (this : Ref) (cfg : PartialConfig)
| Stop
| Restart.

Definition lifecycle (c : LifecycleCall) : M unit :=
  match c with
  | Start this cfg => start this cfg ;; ret tt
  | Stop => stop
  | Restart => restart
  end.

(** The registry [start] installs on a disconnected object. *)
Definition started_registry (o : MrujsInterface) (cfg : PartialConfig) : list Plugin :=
  corePlugins o ++ default (cfg_plugins (config o)) (opt_plugins cfg).

(** The [initialize()] invocations a lifecycle call makes: one pass when
    [start] finds its object disconnected, none otherwise. *)
Definition initializations (c : LifecycleCall) (w : World) : list Call :=
  match c with
  | Start this cfg =>
      match heap w !! this with
      | Some o =>
          if connected o then [] else initialize_pass (started_registry o cfg)
      | None => []
      end
  | Stop | Restart => []
  end.

(** The object [start] stores before it initializes the plugins. *)
Definition configured (o : MrujsInterface) (cfg : PartialConfig) : MrujsInterface :=
  {| connected := connected o;
     corePlugins := corePlugins o;
     plugins := cfg_plugins (spread_config (config o) cfg);
     allPlugins := started_registry o cfg;
     config := spread_config (config o) cfg;
     confirm_callbacks := confirm_callbacks o |}.

(** The world in which [start] calls [connect]. *)
Definition initialized_world (this : Ref) (o : MrujsInterface)
    (cfg : PartialConfig) (w : World) : World :=
  {| valid_selector := valid_selector w; heap := <[this := configured o cfg]> (heap w);
     window_mrujs := Some this; window_Rails := Some this;
     pageshow := pageshow w;
     calls := calls w ++ initialize_pass (started_registry o cfg);
     sweeps := sweeps w;
     timeouts := timeouts w |}.

(** The header of the last entry of a list that registers a shortcut. *)
Definition last_registered (s : string) (l : list CustomMimeTypeInterface)
  : option string :=
  header <$> last (List.filter (fun e => bool_decide (shortcut e = s)) l).

(** An entry after [appendToQuerySelector] has appended to it. *)
Definition appended (entry arg : SelectorInterface) : SelectorInterface :=
  {| selector := match selector arg with
                 | Some s => Some (js_string (selector entry) +:+ ", " +:+ s)
                 | None => selector entry
                 end;
     exclude := match exclude arg with
                | Some e => Some (js_string (exclude entry) +:+ ", " +:+ e)
                | None => exclude entry
                end |}.

(** Every call of the public interface, and of the event loop. *)
Inductive Action :=
| Lifecycle (c : LifecycleCall)
| Mutations (mutationList : list MutationRecord)
| Turn
| RegisterMimeTypes (mimeTypeList : list CustomMimeTypeInterface)
| AppendToQuerySelector (key : string) (arg : SelectorInterface)
| RegisterConfirm (attribute : string) (callback : Callback).

Definition perform (a : Action) : M unit :=
  match a with
  | Lifecycle c => lifecycle c
  | Mutations mutationList => addedNodesCallback mutationList
  | Turn => run_timeout ;; ret tt
  | RegisterMimeTypes mimeTypeList => registerMimeTypes mimeTypeList ;; ret tt
  | AppendToQuerySelector key arg => appendToQuerySelector key arg
  | RegisterConfirm attribute callback => registerConfirm attribute callback
  end.

(** A session: calls made one after the other, a throwing call leaving the
    world as it was when it threw. *)
Definition session (acts : list Action) (w : World) : World :=
  foldl (fun w a => after w (perform a)) w acts.

(** The registry of an object is consistent when [allPlugins] is the core
    list followed by the extension list, and the extension list is the one
    of the configuration. *)
Definition registry_consistent (o : MrujsInterface) : Prop :=
  allPlugins o = corePlugins o ++ plugins o /\
  plugins o = cfg_plugins (config o).

(** [w'] holds the objects of [w], each with the core list it had and with
    a consistent registry if it had one. *)
Definition keeps_registries (w w' : World) : Prop :=
  forall r,
    match heap w !! r, heap w' !! r with
    | Some o, Some o' =>
        corePlugins o' = corePlugins o /\
        (registry_consistent o -> registry_consistent o')
    | None, None => True
    | _, _ => False
    end.

(** The map [registerMimeTypes] builds from its argument before it merges
    it over the mime map. *)
Definition customMimeTypes_of (l : list CustomMimeTypeInterface)
  : gmap string string :=
  foldl (fun acc mimeType => assign acc (shortcut mimeType) (header mimeType)) ∅ l.

(** ** Vocabulary of the lifecycle invariants *)

(** [w'] has the switches of [w]: the [pageshow] listener, the two globals
    and the connected flag of every object. *)
Definition keeps_switches (w w' : World) : Prop :=
  pageshow w' = pageshow w /\
  window_mrujs w' = window_mrujs w /\
  window_Rails w' = window_Rails w /\
  forall r, connected <$> heap w' !! r = connected <$> heap w !! r.

(** The object at [r0] and the [pageshow] listener agree: the listener is
    registered exactly when the object is connected, and the global, once
    set, refers to that object. *)
Definition in_sync (r0 : Ref) (w : World) : Prop :=
  exists o, heap w !! r0 = Some o /\
    pageshow w = connected o /\
    match window_mrujs w with
    | Some r => r = r0
    | None => connected o = false
    end.

(** A call that, if it is a [start], is a [start] on the object at [r0]. *)
Definition on_object (r0 : Ref) (a : Action) : Prop :=
  match a with
  | Lifecycle (Start this _) => this = r0
  | _ => True
  end.

(** ** [fetch] *)

(** A JavaScript value, as far as [fetch] looks at it. *)
Inductive JsValue :=
| js_undefined
| js_null
| JsBool (b : bool)
| JsString (s : string)
| JsObject (id : nat).

Global Instance JsValue_eq_dec : EqDecision JsValue.
Proof. solve_decision. Defined.

(** Reading a property of an options object: a missing key reads as
    [undefined]. *)
Definition get (options : gmap string JsValue) (key : string) : JsValue :=
  default js_undefined (options !! key).

(** [v == null] *)
Definition is_nullish (v : JsValue) : bool :=
  match v with
  | js_undefined | js_null => true
  | _ => false
  end.

Section Fetch.

(** [FetchRequest] and the requests it builds are defined in another
    module, [document.documentElement] is the page's, and the name of the
    event is a constant of [AJAX_EVENTS]. *)
Variables Input Request FetchRequestObject : Type.
Variable FetchRequest : Input -> gmap string JsValue -> FetchRequestObject.
Variable request : FetchRequestObject -> Request.
Variable documentElement : nat.
Variable ajaxBeforeSend : string.

(** The [detail] of the dispatched event. *)
Record AjaxDetail := {
  detail_element : JsValue;
  detail_fetchRequest : FetchRequestObject;
  detail_request : Request;
  detail_submitter : JsValue
}.

(** What [fetch] does to the outside. *)
Inductive FetchEffect :=
| Dispatch (this : JsValue) (name : string) (detail : AjaxDetail)
| WindowFetch (r : Request).

(** The outcome of a call: the promise returned ([None] for [undefined];
    a promise is known by the request it answers), the options object as
    the call left it, and the effects in order. *)
Record FetchOutcome := {
  promise : option Request;
  options_left : gmap string JsValue;
  effects : list FetchEffect
}.

Definition fetch (input : Input) (options : gmap string JsValue) : FetchOutcome :=
  let element := get options "element" in
  let submitter := get options "submitter" in
  let dispatchEvents := get options "dispatchEvents" in
  let options := delete "element" options in
  let options := delete "submitter" options in
  let options := delete "dispatchEvents" options in
  let fetchRequest := FetchRequest input options in
  if bool_decide (dispatchEvents = JsBool true) then
    let element := if is_nullish element then JsObject documentElement else element in
    {| promise := None;
       options_left := options;
       effects := [Dispatch element ajaxBeforeSend
                     {| detail_element := element;
                        detail_fetchRequest := fetchRequest;
                        detail_request := request fetchRequest;
                        detail_submitter := submitter |}] |}
  else
    {| promise := Some (request fetchRequest);
       options_left := options;
       effects := [WindowFetch (request fetchRequest)] |}.

End Fetch.

Arguments Dispatch {Request FetchRequestObject} this name detail.
Arguments WindowFetch {Request FetchRequestObject} r.
Arguments promise {Request FetchRequestObject} _.
Arguments options_left {Request FetchRequestObject} _.
Arguments effects {Request FetchRequestObject} _.
Arguments fetch {Input Request FetchRequestObject}
  FetchRequest request documentElement ajaxBeforeSend input options.

(** ** The submit-event polyfill

    The second source file makes [event.submitter] available where the
    engine lacks it: a capturing click listener remembers, per form, the
    submit control that was clicked, and a getter on the event prototype
    looks it up. *)

Module SubmitEvent.

(** An element, by identity, with the properties the polyfill reads: its
    local name, its [type] and the form that owns it. *)
Record Element := {
  id : nat;
  localName : string;
  type : option string;
  form : option nat
}.

(** A node is an element or something else (a text node, a document). *)
Inductive Node :=
| IsElement (e : Element)
| NotElement (id : nat).

(** An event target is a node, given with its ancestors from the parent
    upwards, or an object that is no node (the window, a request). *)
Inductive EventTarget :=
| NodeTarget (self : Node) (ancestors : list Node)
| OtherTarget.

Record Event := {
  event_type : string;
  target : option EventTarget
}.

(** The inclusive ancestors of an element that are elements, nearest
    first. *)
Definition element_chain (e : Element) (ancestors : list Node) : list Element :=
  e :: omap (fun n => match n with IsElement a => Some a | NotElement _ => None end)
            ancestors.

(** [element.closest(selectors)], for a selector given as a test. *)
Definition closest (selectors : Element -> bool) (e : Element)
    (ancestors : list Node) : option Element :=
  List.find selectors (element_chain e ancestors).

(** The selector ['input, button']. *)
Definition input_or_button (e : Element) : bool :=
  bool_decide (localName e = "input") || bool_decide (localName e = "button").

(** [node.parentElement]: the parent when it is an element, with its own
    ancestors. *)
Definition parentElement (ancestors : list Node) : option (Element * list Node) :=
  match ancestors with
  | IsElement p :: rest => Some (p, rest)
  | _ => None
  end.

Definition findSubmitterFromClickTarget (target : option EventTarget)
  : option Element :=
  let element :=
    match target with
    | Some (NodeTarget (IsElement e) ancestors) => Some (e, ancestors)
    | Some (NodeTarget (NotElement _) ancestors) => parentElement ancestors
    | _ => None
    end in
  let candidate :=
    match element with
    | Some (e, ancestors) => closest input_or_button e ancestors
    | None => None
    end in
  match candidate with
  | Some c => if bool_decide (type c = Some "submit") then Some c else None
  | None => None
  end.

(** [clickCaptured], on the map [submittersByForm], keyed by the identity
    of the form. *)
Definition clickCaptured (event : Event) (submittersByForm : gmap nat Element)
  : gmap nat Element :=
  match findSubmitterFromClickTarget (target event) with
  | Some submitter =>
      match form submitter with
      | Some f => <[f := submitter]> submittersByForm
      | None => submittersByForm
      end
  | None => submittersByForm
  end.

(** The getter the polyfill defines for [submitter]. *)
Definition submitter (this : Event) (submittersByForm : gmap nat Element)
  : option Element :=
  match target this with
  | Some (NodeTarget (IsElement e) _) =>
      if bool_decide (event_type this = "submit") &&
         bool_decide (localName e = "form")
      then submittersByForm !! id e
      else None
  | _ => None
  end.

(** The clicks of a page, captured one after the other. *)
Definition capture_all (clicks : list Event) (submittersByForm : gmap nat Element)
  : gmap nat Element :=
  foldl (fun m click => clickCaptured click m) submittersByForm clicks.

(** The elements a click can resolve to: the target and its ancestors when
    the target is an element, its parent element and that element's
    ancestors when it is another node, none otherwise. *)
Definition click_chain (target : option EventTarget) : list Element :=
  match target with
  | Some (NodeTarget (IsElement e) ancestors) => element_chain e ancestors
  | Some (NodeTarget (NotElement _) (IsElement p :: rest)) => element_chain p rest
  | _ => []
  end.

(** A small form for the examples: a submit button with an icon and a text
    node inside it, and a text input. *)
Definition the_form : Element :=
  {| id := 1; localName := "form"; type := None; form := None |}.

Definition save_button : Element :=
  {| id := 2; localName := "button"; type := Some "submit"; form := Some 1 |}.

Definition icon : Element :=
  {| id := 3; localName := "span"; type := None; form := None |}.

Definition name_input : Element :=
  {| id := 4; localName := "input"; type := Some "text"; form := Some 1 |}.

(** A click on the text inside the icon of the button, a click in the text
    input, and the submit event of the form. *)
Definition click_on_label : Event :=
  {| event_type := "click";
     target := Some (NodeTarget (NotElement 5)
                       [IsElement icon; IsElement save_button;
                        IsElement the_form; NotElement 0]) |}.

Definition click_in_input : Event :=
  {| event_type := "click";
     target := Some (NodeTarget (IsElement name_input)
                       [IsElement the_form; NotElement 0]) |}.

Definition submit_of_form : Event :=
  {| event_type := "submit";
     target := Some (NodeTarget (IsElement the_form) [NotElement 0]) |}.







End SubmitEvent.

(** ** Loops and hooks *)

Lemma world_eta w :
  {| valid_selector := valid_selector w; heap := heap w; window_mrujs := window_mrujs w; window_Rails := window_Rails w;
     pageshow := pageshow w; calls := calls w; sweeps := sweeps w;
     timeouts := timeouts w |} = w.
Proof. by destruct w. Qed.

Lemma set_calls_app_nil w : set_calls (calls w ++ []) w = w.
Proof. unfold set_calls. rewrite app_nil_r. apply world_eta. Qed.

Lemma for_each_plugin_calls has c ps w :
  for_each_plugin has c ps w = Normal tt (set_calls (calls w ++ pass has c ps) w).
Proof.
  unfold for_each_plugin, pass. revert w.
  induction ps as [|p ps IH]; intros w; simpl.
  - unfold ret. by rewrite set_calls_app_nil.
  - unfold bind, call_hook. destruct (has p) eqn:Hp; simpl.
    + rewrite IH. simpl. unfold set_calls; simpl. by rewrite <- app_assoc.
    + by rewrite IH.
Qed.

Lemma filter_fmap_keep {A} (f : A -> Call) (q : Call -> bool) (l : list A) :
  (forall x, q (f x) = true) -> List.filter q (f <$> l) = f <$> l.
Proof.
  intros Hq. induction l as [|x l IH]; simpl; [done|].
  rewrite Hq. by f_equal.
Qed.

Lemma filter_fmap_drop {A} (f : A -> Call) (q : Call -> bool) (l : list A) :
  (forall x, q (f x) = false) -> List.filter q (f <$> l) = [].
Proof.
  intros Hq. induction l as [|x l IH]; simpl; [done|].
  by rewrite Hq.
Qed.

Lemma initialize_calls_app cs1 cs2 :
  initialize_calls (cs1 ++ cs2) = initialize_calls cs1 ++ initialize_calls cs2.
Proof. apply List.filter_app. Qed.

Lemma initialize_calls_initialize_pass ps :
  initialize_calls (initialize_pass ps) = initialize_pass ps.
Proof. by apply filter_fmap_keep. Qed.

Lemma initialize_calls_connect_pass ps : initialize_calls (connect_pass ps) = [].
Proof. by apply filter_fmap_drop. Qed.

Lemma initialize_calls_disconnect_pass ps : initialize_calls (disconnect_pass ps) = [].
Proof. by apply filter_fmap_drop. Qed.

(** ** [connect] and [disconnect] *)

Lemma sweep_selector_Some o s :
  sweep_selector o = Some s ->
  exists f l, querySelectors o !! "formEnableSelector" = Some f /\
              querySelectors o !! "linkDisableSelector" = Some l /\
              s = js_string (selector f) +:+ ", " +:+ js_string (selector l).
Proof.
  unfold sweep_selector.
  destruct (querySelectors o !! "formEnableSelector") as [f|]; [|done].
  destruct (querySelectors o !! "linkDisableSelector") as [l|]; [|done].
  intros [= <-]. by exists f, l.
Qed.

Lemma connect_completes w r o s :
  window_mrujs w = Some r -> heap w !! r = Some o -> sweep_selector o = Some s ->
  valid_selector w s = true ->
  connect w = Normal tt (connected_world r o s w).
Proof.
  intros Hr Ho (f & l & Hf & Hl & ->)%sweep_selector_Some Hv.
  unfold connect, reEnableDisabledElements, querySelectorAll, bind, mrujs,
    store, effect.
  rewrite Hr, Ho, Hf, Hl, Hv. simpl. rewrite Hr, Ho.
  rewrite for_each_plugin_calls. simpl. by rewrite Hr, Ho.
Qed.

(** The sweep rejects the selector: [connect] throws a [SyntaxError]
    before it has done anything. *)
Lemma connect_rejected w r o s :
  window_mrujs w = Some r -> heap w !! r = Some o -> sweep_selector o = Some s ->
  valid_selector w s = false ->
  connect w = Throw SyntaxError w.
Proof.
  intros Hr Ho (f & l & Hf & Hl & ->)%sweep_selector_Some Hv.
  unfold connect, reEnableDisabledElements, querySelectorAll, bind, mrujs.
  by rewrite Hr, Ho, Hf, Hl, Hv.
Qed.

(** An entry of the sweep is missing: [connect] throws a [TypeError]
    before it has done anything. *)
Lemma connect_unswept w r o :
  window_mrujs w = Some r -> heap w !! r = Some o -> sweep_selector o = None ->
  connect w = Throw TypeError w.
Proof.
  intros Hr Ho Hs.
  unfold connect, reEnableDisabledElements, bind, mrujs. rewrite Hr, Ho.
  unfold sweep_selector in Hs.
  destruct (querySelectors o !! "formEnableSelector") as [f|]; [|done].
  by destruct (querySelectors o !! "linkDisableSelector") as [l|].
Qed.

Lemma disconnect_completes w r o :
  window_mrujs w = Some r -> heap w !! r = Some o ->
  disconnect w = Normal tt (disconnected_world r o w).
Proof.
  intros Hr Ho.
  unfold disconnect, bind, mrujs, store, effect. simpl. rewrite Hr, Ho.
  rewrite for_each_plugin_calls. simpl. by rewrite Hr, Ho.
Qed.

(** [connect] either completes or throws before it has done anything. *)
Lemma connect_cases w :
  (exists r o s, window_mrujs w = Some r /\ heap w !! r = Some o /\
                 sweep_selector o = Some s /\ valid_selector w s = true /\
                 connect w = Normal tt (connected_world r o s w))
  \/ exists e, connect w = Throw e w.
Proof.
  destruct (window_mrujs w) as [r|] eqn:Hr; cycle 1.
  { right. exists TypeError.
    unfold connect, reEnableDisabledElements, bind, mrujs. by rewrite Hr. }
  destruct (heap w !! r) as [o|] eqn:Ho; cycle 1.
  { right. exists TypeError.
    unfold connect, reEnableDisabledElements, bind, mrujs. by rewrite Hr, Ho. }
  destruct (sweep_selector o) as [s|] eqn:Hs; cycle 1.
  { right. exists TypeError. by eapply connect_unswept. }
  destruct (valid_selector w s) eqn:Hv.
  - left. exists r, o, s. repeat (split; [done|]). by apply connect_completes.
  - right. exists SyntaxError. by eapply connect_rejected.
Qed.

(** [disconnect] either completes or throws right after it has removed the
    [pageshow] listener. *)
Lemma disconnect_cases w :
  (exists r o, window_mrujs w = Some r /\ heap w !! r = Some o /\
               disconnect w = Normal tt (disconnected_world r o w))
  \/ disconnect w = Throw TypeError (set_pageshow false w).
Proof.
  destruct (window_mrujs w) as [r|] eqn:Hr; cycle 1.
  { right. unfold disconnect, bind, mrujs, effect. simpl. by rewrite Hr. }
  destruct (heap w !! r) as [o|] eqn:Ho; cycle 1.
  { right. unfold disconnect, bind, mrujs, effect. simpl. by rewrite Hr, Ho. }
  left. exists r, o. eauto using disconnect_completes.
Qed.

Lemma start_unfold this cfg w :
  start this cfg w =
  match heap w !! this with
  | None => Throw TypeError (set_window this w)
  | Some o =>
      if connected o then Normal this (set_window this w)
      else match connect (initialized_world this o cfg w) with
           | Normal _ w' => Normal this w'
           | Throw e w' => Throw e w'
           end
  end.
Proof.
  unfold start, bind, mrujs, effect, store. simpl.
  destruct (heap w !! this) as [o|]; [|done].
  destruct (connected o) eqn:Hc; [done|]. simpl.
  rewrite for_each_plugin_calls.
  unfold initialized_world, configured, started_registry. by rewrite Hc.
Qed.

Lemma start_connected this cfg w o :
  heap w !! this = Some o -> connected o = true ->
  start this cfg w = Normal this (set_window this w).
Proof. intros Ho Hc. by rewrite start_unfold, Ho, Hc. Qed.

(** What a completed [start] has done, in either case. *)
Lemma start_Normal this cfg w r w' :
  start this cfg w = Normal r w' ->
  r = this /\
  exists o, heap w !! this = Some o /\
    ((connected o = true /\ w' = set_window this w) \/
     (connected o = false /\ exists s,
        sweep_selector (configured o cfg) = Some s /\
        w' = connected_world this (configured o cfg) s
               (initialized_world this o cfg w))).
Proof.
  rewrite start_unfold.
  destruct (heap w !! this) as [o|] eqn:Ho; [|done].
  destruct (connected o) eqn:Hc.
  { intros [= <- <-]. split; [done|]. exists o. eauto. }
  destruct (connect_cases (initialized_world this o cfg w))
    as [(r' & o' & s & Hr & Ho' & Hs & _ & ->)|[e ->]]; [|done].
  intros [= <- <-]. split; [done|]. exists o. split; [done|]. right.
  split; [done|]. simpl in Hr, Ho'. injection Hr as <-.
  rewrite lookup_insert_eq in Ho'. injection Ho' as <-. eauto.
Qed.

(** ** Lifecycle theorems *)

(** C1 (as amended).  [initialize()] is invoked by [start] alone, and only
    when [start] finds its object disconnected: such a call makes exactly
    one initialize pass over the registry it installs; a [start] on a
    connected object, [stop] and [restart] invoke no [initialize()] at all.
    This holds whether or not the call completes. *)
Theorem initialize_only_on_disconnected_start (c : LifecycleCall) (w : World) :
  initialize_calls (calls (after w (lifecycle c)))
  = initialize_calls (calls w) ++ initializations c w.
Proof.
  unfold after. destruct c as [this cfg| |]; simpl.
  - unfold bind. rewrite start_unfold.
    destruct (heap w !! this) as [o|] eqn:Ho; simpl; [|by rewrite app_nil_r].
    destruct (connected o) eqn:Hc; simpl; [by rewrite app_nil_r|].
    destruct (connect_cases (initialized_world this o cfg w))
      as [(r & o' & s & _ & _ & _ & _ & ->)|[e ->]]; simpl.
    + rewrite !initialize_calls_app, initialize_calls_initialize_pass,
        initialize_calls_connect_pass. by rewrite app_nil_r.
    + by rewrite initialize_calls_app, initialize_calls_initialize_pass.
  - unfold stop.
    destruct (disconnect_cases w) as [(r & o & _ & _ & ->)| ->]; simpl.
    + by rewrite initialize_calls_app, initialize_calls_disconnect_pass.
    + by rewrite app_nil_r.
  - unfold restart, bind.
    destruct (disconnect_cases w) as [(r & o & _ & _ & ->)| ->]; simpl;
      [|by rewrite app_nil_r].
    destruct (connect_cases (disconnected_world r o w))
      as [(r' & o' & s & _ & _ & _ & _ & ->)|[e ->]]; simpl.
    + rewrite !initialize_calls_app, initialize_calls_disconnect_pass,
        initialize_calls_connect_pass. by rewrite !app_nil_r.
    + rewrite initialize_calls_app, initialize_calls_disconnect_pass.
      by rewrite !app_nil_r.
Qed.

(** C1, as stated, fails: [start(); stop(); start()] initializes the
    extension plugin a second time. *)
Lemma initialize_again_after_stop :
  let w1 := after fresh_page (start 0 empty_config) in
  let w2 := after w1 stop in
  let w3 := after w2 (start 0 empty_config) in
  returned (start 0 empty_config fresh_page) = true /\
  returned (stop w1) = true /\
  returned (start 0 empty_config w2) = true /\
  times (Initialize extension) (calls w1) = 1 /\
  times (Initialize extension) (calls w3) = 2.
Proof. vm_compute. by repeat split. Qed.

(** C2 (as amended).  [stop] has no guard: whatever the connected flag
    was, it completes, leaves the flag false and makes one full disconnect
    pass over the registry; a second [stop] makes a second pass. *)
Theorem stop_disconnects_every_time (w : World) (r : Ref) (o : MrujsInterface) :
  window_mrujs w = Some r -> heap w !! r = Some o ->
  exists w1 w2,
    stop w = Normal tt w1 /\ stop w1 = Normal tt w2 /\
    connected <$> heap w1 !! r = Some false /\
    connected <$> heap w2 !! r = Some false /\
    calls w1 = calls w ++ disconnect_pass (allPlugins o) /\
    calls w2 = calls w1 ++ disconnect_pass (allPlugins o).
Proof.
  intros Hr Ho. unfold stop.
  exists (disconnected_world r o w).
  exists (disconnected_world r (set_connected false o) (disconnected_world r o w)).
  split; [by apply disconnect_completes|].
  split; [apply disconnect_completes; [done|apply lookup_insert_eq]|].
  simpl. by rewrite !lookup_insert_eq.
Qed.

Lemma stop_disconnects_every_time_witness :
  exists w1 w2,
    stop started_page = Normal tt w1 /\ stop w1 = Normal tt w2 /\
    connected <$> heap w1 !! 0 = Some false /\
    connected <$> heap w2 !! 0 = Some false /\
    calls w1 = calls started_page ++ disconnect_pass (allPlugins started_Mrujs) /\
    calls w2 = calls w1 ++ disconnect_pass (allPlugins started_Mrujs).
Proof.
  apply (stop_disconnects_every_time started_page 0 started_Mrujs);
    vm_compute; reflexivity.
Defined.

(** C2, as stated, fails: the second of two [stop]s, called on a
    disconnected object, invokes every [disconnect()] hook again. *)
Lemma second_stop_disconnects_again :
  let w1 := started_page in
  let w2 := after w1 stop in
  let w3 := after w2 stop in
  returned (stop w1) = true /\ returned (stop w2) = true /\
  connected <$> heap w2 !! 0 = Some false /\
  connected <$> heap w3 !! 0 = Some false /\
  times (Disconnect extension) (calls w2) = 1 /\
  times (Disconnect extension) (calls w3) = 2 /\
  calls w3 <> calls w2.
Proof. vm_compute. repeat split. congruence. Qed.

(** C3.  A [start] that follows a completed [start] on the same object,
    with any configuration, returns that object and changes nothing: the
    connected flag is still true and no hook, [initialize()] included, is
    invoked. *)
Theorem start_twice_is_noop (this : Ref) (c1 c2 : PartialConfig)
    (w w1 : World) (r : Ref) :
  start this c1 w = Normal r w1 ->
  start this c2 w1 = Normal this w1 /\
  r = this /\
  connected <$> heap w1 !! this = Some true /\
  calls (after w1 (start this c2)) = calls w1.
Proof.
  intros (-> & o & Ho & [[Hc ->]|(Hc & s & Hs & ->)])%start_Normal.
  - assert (start this c2 (set_window this w) = Normal this (set_window this w))
      as Hagain by (by erewrite start_connected).
    unfold after. rewrite Hagain. simpl. rewrite Ho. simpl. by rewrite Hc.
  - set (w1 := connected_world _ _ _ _).
    assert (heap w1 !! this = Some (set_connected true (configured o c1)))
      as Ho1 by apply lookup_insert_eq.
    assert (start this c2 w1 = Normal this w1) as Hagain
      by (by erewrite start_connected).
    unfold after. rewrite Hagain, Ho1. done.
Qed.

Lemma start_twice_is_noop_witness :
  start 0 empty_config started_page = Normal 0 started_page /\
  0 = 0 /\
  connected <$> heap started_page !! 0 = Some true /\
  calls (after started_page (start 0 empty_config)) = calls started_page.
Proof.
  apply (start_twice_is_noop 0 empty_config empty_config fresh_page started_page 0).
  vm_compute. reflexivity.
Defined.

(** C5 (as amended).  Once [window.mrujs] is an object whose two sweep
    entries exist and join into a selector the document parses, [restart]
    completes whatever the connected flag was: the flag ends true and the
    call has made exactly one disconnect pass and then exactly one connect
    pass over the registry.  In the other cases it throws: a [TypeError]
    before any hook while [window.mrujs] is undefined, and, after the
    disconnect pass and with the flag false, a [TypeError] when a sweep
    entry is missing or a [SyntaxError] when the document rejects the
    selector. *)
Theorem restart_disconnects_then_connects (w : World) :
  match (r ← window_mrujs w; o ← heap w !! r; Some (r, o)) with
  | None => restart w = Throw TypeError (set_pageshow false w)
  | Some (r, o) =>
      match sweep_selector o with
      | Some s =>
          if valid_selector w s then
            exists w',
              restart w = Normal tt w' /\
              connected <$> heap w' !! r = Some true /\
              allPlugins <$> heap w' !! r = Some (allPlugins o) /\
              calls w' = calls w ++ disconnect_pass (allPlugins o)
                                 ++ connect_pass (allPlugins o)
          else restart w = Throw SyntaxError (disconnected_world r o w)
      | None => restart w = Throw TypeError (disconnected_world r o w)
      end
  end.
Proof.
  unfold restart, bind.
  destruct (window_mrujs w) as [r|] eqn:Hr; simpl; cycle 1.
  { unfold disconnect, bind, effect, mrujs. simpl. by rewrite Hr. }
  destruct (heap w !! r) as [o|] eqn:Ho; simpl; cycle 1.
  { unfold disconnect, bind, effect, mrujs. simpl. by rewrite Hr, Ho. }
  rewrite (disconnect_completes w r o) by done.
  assert (heap (disconnected_world r o w) !! r = Some (set_connected false o))
    as Ho' by apply lookup_insert_eq.
  destruct (sweep_selector o) as [s|] eqn:Hs; cycle 1.
  { by erewrite connect_unswept. }
  destruct (valid_selector w s) eqn:Hv; cycle 1.
  { by erewrite connect_rejected. }
  erewrite connect_completes by done. eexists. split; [done|]. simpl.
  rewrite !lookup_insert_eq. simpl. by rewrite <- app_assoc.
Qed.

(** C5, as stated, fails: before the first [start], [restart] throws and
    the object stays disconnected; and once a selector the document rejects
    has been appended to a sweep entry, [restart] on the connected object
    throws and leaves it disconnected. *)
Lemma restart_can_throw :
  (returned (restart fresh_page) = false /\
   connected <$> heap (after fresh_page restart) !! 0 = Some false /\
   calls (after fresh_page restart) = []) /\
  (let w := after started_page
              (appendToQuerySelector "formEnableSelector"
                 {| selector := Some "[data-x=]"; exclude := None |}) in
   connected <$> heap w !! 0 = Some true /\
   returned (restart w) = false /\
   connected <$> heap (after w restart) !! 0 = Some false).
Proof. vm_compute. by repeat split. Qed.

(** ** Dispatch theorems *)

Lemma addedNodesCallback_queues mutationList w :
  addedNodesCallback mutationList w
  = Normal tt (set_timeouts (timeouts w ++ (addedNodes_of <$> mutationList)) w).
Proof.
  unfold addedNodesCallback. revert w.
  induction mutationList as [|m ml IH]; intros w; simpl.
  - unfold ret, set_timeouts. rewrite app_nil_r. by rewrite world_eta.
  - unfold bind, setTimeout, effect. rewrite IH. simpl.
    unfold set_timeouts; simpl. by rewrite <- app_assoc.
Qed.

Lemma run_timeout_delivers w r o nodes rest :
  window_mrujs w = Some r -> heap w !! r = Some o ->
  timeouts w = nodes :: rest ->
  run_timeout w
  = Normal true (set_calls (calls w ++ observer_pass nodes (allPlugins o))
                   (set_timeouts rest w)).
Proof.
  intros Hr Ho Ht. unfold run_timeout. rewrite Ht.
  unfold bind, effect, deferred, bind, mrujs. simpl. rewrite Hr, Ho.
  by rewrite for_each_plugin_calls.
Qed.

Lemma event_loop_drains w r o :
  window_mrujs w = Some r -> heap w !! r = Some o ->
  event_loop (length (timeouts w)) w
  = Normal tt (set_calls
      (calls w ++ concat ((fun nodes => observer_pass nodes (allPlugins o))
                            <$> timeouts w))
      (set_timeouts [] w)).
Proof.
  remember (timeouts w) as ts eqn:Hts. revert w Hts.
  induction ts as [|nodes rest IH]; intros w Hts Hr Ho; simpl.
  - unfold ret, set_calls, set_timeouts; simpl.
    rewrite app_nil_r, Hts. by rewrite world_eta.
  - unfold bind. erewrite run_timeout_delivers by eauto.
    rewrite IH by done. simpl. unfold set_calls, set_timeouts; simpl.
    by rewrite <- app_assoc.
Qed.

(** C6.  [addedNodesCallback] invokes nothing itself: it queues one
    deferred task per mutation record, in record order, whose batch is
    [[record.target]] for an attribute change and the record's added nodes
    otherwise.  Each task, when its turn comes, hands its batch to the
    [observerCallback] of every plugin, in registry order; once the queue
    has been run, every batch has been delivered, record after record. *)
Theorem mutations_dispatched_deferred (mutationList : list MutationRecord)
    (w : World) (r : Ref) (o : MrujsInterface) :
  window_mrujs w = Some r -> heap w !! r = Some o ->
  let batch := fun m : MutationRecord =>
    match type m with attributes => [target m] | _ => addedNodes m end in
  let deliver := fun nodes : list Node => observer_pass nodes (allPlugins o) in
  exists w1 w2,
    addedNodesCallback mutationList w = Normal tt w1 /\
    calls w1 = calls w /\
    timeouts w1 = timeouts w ++ (batch <$> mutationList) /\
    (forall i m w' rest,
       mutationList !! i = Some m ->
       heap w' = heap w -> window_mrujs w' = Some r ->
       timeouts w' = batch m :: rest ->
       exists w'', run_timeout w' = Normal true w'' /\
         calls w'' = calls w' ++ deliver (batch m) /\
         timeouts w'' = rest) /\
    event_loop (length (timeouts w) + length mutationList) w1 = Normal tt w2 /\
    calls w2 = calls w ++ concat (deliver <$> timeouts w)
                       ++ concat ((fun m => deliver (batch m)) <$> mutationList) /\
    timeouts w2 = [].
Proof.
  intros Hr Ho batch deliver.
  set (w1 := set_timeouts (timeouts w ++ (addedNodes_of <$> mutationList)) w).
  eexists w1, _. split; [apply addedNodesCallback_queues|].
  split; [done|]. split; [done|]. split.
  { intros i m w' rest _ Hh Hr' Ht'. eexists. split.
    - eapply run_timeout_delivers; [done| |done]. by rewrite Hh.
    - done. }
  pose proof (event_loop_drains w1 r o Hr Ho) as Hloop.
  simpl in Hloop. rewrite length_app, length_fmap in Hloop.
  split; [exact Hloop|].
  simpl. split; [|done]. f_equal.
  by rewrite fmap_app, concat_app, <- list_fmap_compose.
Qed.

Lemma mutations_dispatched_deferred_witness :
  let ml := [ {| type := attributes; target := 5; addedNodes := [] |};
              {| type := childList; target := 6; addedNodes := [1; 2] |} ] in
  let batch := fun m : MutationRecord =>
    match type m with attributes => [target m] | _ => addedNodes m end in
  let deliver := fun nodes : list Node =>
    observer_pass nodes (allPlugins started_Mrujs) in
  exists w1 w2,
    addedNodesCallback ml started_page = Normal tt w1 /\
    calls w1 = calls started_page /\
    timeouts w1 = timeouts started_page ++ (batch <$> ml) /\
    (forall i m w' rest,
       ml !! i = Some m ->
       heap w' = heap started_page -> window_mrujs w' = Some 0 ->
       timeouts w' = batch m :: rest ->
       exists w'', run_timeout w' = Normal true w'' /\
         calls w'' = calls w' ++ deliver (batch m) /\
         timeouts w'' = rest) /\
    event_loop (length (timeouts started_page) + length ml) w1 = Normal tt w2 /\
    calls w2 = calls started_page ++ concat (deliver <$> timeouts started_page)
                 ++ concat ((fun m => deliver (batch m)) <$> ml) /\
    timeouts w2 = [].
Proof.
  intros ml.
  apply (mutations_dispatched_deferred ml started_page 0 started_Mrujs);
    vm_compute; reflexivity.
Defined.

(** ** The registry invariant *)

Lemma keeps_registries_refl w : keeps_registries w w.
Proof. intros r. by destruct (heap w !! r). Qed.

Lemma keeps_registries_trans w1 w2 w3 :
  keeps_registries w1 w2 -> keeps_registries w2 w3 -> keeps_registries w1 w3.
Proof.
  intros H12 H23 r. specialize (H12 r). specialize (H23 r).
  destruct (heap w1 !! r), (heap w2 !! r), (heap w3 !! r); try done.
  destruct H12 as [E12 ?], H23 as [E23 ?]. split; [congruence|auto].
Qed.

(** Worlds with the same heap. *)
Lemma keeps_registries_same_heap w w' :
  heap w' = heap w -> keeps_registries w w'.
Proof. intros Hh r. rewrite Hh. by destruct (heap w !! r). Qed.

(** Replacing one object by an object with the same core list. *)
Lemma keeps_registries_update w w' r o o' :
  heap w !! r = Some o -> heap w' = <[r := o']> (heap w) ->
  corePlugins o' = corePlugins o ->
  (registry_consistent o -> registry_consistent o') ->
  keeps_registries w w'.
Proof.
  intros Ho Hh Hcore Hreg r'. rewrite Hh.
  destruct (decide (r = r')) as [<-|Hne].
  - by rewrite lookup_insert_eq, Ho.
  - rewrite lookup_insert_ne by done. by destruct (heap w !! r').
Qed.

Lemma configured_consistent o cfg : registry_consistent (configured o cfg).
Proof. done. Qed.

Lemma connect_keeps_registries w : keeps_registries w (after w connect).
Proof.
  unfold after.
  destruct (connect_cases w) as [(r & o & s & Hr & Ho & _ & _ & ->)|[e ->]]; simpl.
  - by eapply keeps_registries_update.
  - apply keeps_registries_refl.
Qed.

Lemma disconnect_keeps_registries w : keeps_registries w (after w disconnect).
Proof.
  unfold after.
  destruct (disconnect_cases w) as [(r & o & Hr & Ho & ->)| ->]; simpl.
  - by eapply keeps_registries_update.
  - by apply keeps_registries_same_heap.
Qed.

Lemma after_bind {A B} (m : M A) (k : A -> M B) w :
  after w (bind m k)
  = match m w with
    | Normal a w' => after w' (k a)
    | Throw _ w' => w'
    end.
Proof. unfold after, bind. by destruct (m w). Qed.

Lemma lifecycle_keeps_registries c w : keeps_registries w (after w (lifecycle c)).
Proof.
  destruct c as [this cfg| |]; simpl.
  - rewrite after_bind, start_unfold.
    destruct (heap w !! this) as [o|] eqn:Ho; [|by apply keeps_registries_same_heap].
    destruct (connected o) eqn:Hc; [by apply keeps_registries_same_heap|].
    apply keeps_registries_trans with (initialized_world this o cfg w).
    { eapply keeps_registries_update; [done..|]. intros _. apply configured_consistent. }
    pose proof (connect_keeps_registries (initialized_world this o cfg w)) as Hk.
    unfold after in Hk.
    by destruct (connect (initialized_world this o cfg w)).
  - apply disconnect_keeps_registries.
  - unfold restart. rewrite after_bind.
    pose proof (disconnect_keeps_registries w) as Hd. unfold after in Hd.
    destruct (disconnect w) as [[] w1|e w1]; simpl in Hd; [|done].
    eapply keeps_registries_trans; [done|]. apply connect_keeps_registries.
Qed.

Lemma appendToQuerySelector_keeps_registries key arg w :
  keeps_registries w (after w (appendToQuerySelector key arg)).
Proof.
  unfold after, appendToQuerySelector, bind, mrujs.
  destruct (window_mrujs w) as [r|]; [|apply keeps_registries_refl].
  destruct (heap w !! r) as [o|] eqn:Ho; [|apply keeps_registries_refl].
  destruct (querySelectors o !! key); [|apply keeps_registries_refl].
  by eapply keeps_registries_update.
Qed.

Lemma push_confirm_callback_keeps_registries callback w :
  keeps_registries w (after w (push_confirm_callback callback)).
Proof.
  unfold after, push_confirm_callback.
  destruct (window_mrujs w) as [r|]; [|apply keeps_registries_refl].
  destruct (heap w !! r) as [o|] eqn:Ho; [|apply keeps_registries_refl].
  destruct (confirm_callbacks o); [|apply keeps_registries_refl].
  by eapply keeps_registries_update.
Qed.

Lemma perform_keeps_registries a w : keeps_registries w (after w (perform a)).
Proof.
  destruct a as [c|ml| |l|key arg|attribute callback]; simpl.
  - apply lifecycle_keeps_registries.
  - unfold after. rewrite addedNodesCallback_queues.
    by apply keeps_registries_same_heap.
  - rewrite after_bind. unfold run_timeout.
    destruct (timeouts w) as [|nodes rest]; [apply keeps_registries_refl|].
    unfold bind, effect, deferred, bind, mrujs. simpl.
    destruct (window_mrujs w) as [r|]; [|by apply keeps_registries_same_heap].
    destruct (heap w !! r) as [o|]; [|by apply keeps_registries_same_heap].
    rewrite for_each_plugin_calls. by apply keeps_registries_same_heap.
  - rewrite after_bind. unfold registerMimeTypes, bind, mrujs, store, effect.
    destruct (window_mrujs w) as [r|] eqn:Hr; [|apply keeps_registries_refl].
    destruct (heap w !! r) as [o|] eqn:Ho; [|apply keeps_registries_refl].
    simpl. rewrite Hr, lookup_insert_eq. simpl.
    by eapply keeps_registries_update.
  - apply appendToQuerySelector_keeps_registries.
  - unfold registerConfirm. rewrite after_bind.
    match goal with |- context [appendToQuerySelector ?k ?a w] =>
      pose proof (appendToQuerySelector_keeps_registries k a w) as H1;
      unfold after in H1; destruct (appendToQuerySelector k a w) as [[] w1|e w1]
    end; simpl in H1; [|done].
    eapply keeps_registries_trans; [done|]. rewrite after_bind.
    match goal with |- context [appendToQuerySelector ?k ?a w1] =>
      pose proof (appendToQuerySelector_keeps_registries k a w1) as H2;
      unfold after in H2; destruct (appendToQuerySelector k a w1) as [[] w2|e w2]
    end; simpl in H2; [|done].
    eapply keeps_registries_trans; [done|].
    apply push_confirm_callback_keeps_registries.
Qed.

(** Whatever the page calls, every object keeps the core list it was built
    with, and an object whose registry is consistent keeps it so. *)
Lemma session_keeps_registries acts w : keeps_registries w (session acts w).
Proof.
  unfold session. revert w.
  induction acts as [|a acts IH]; intros w; simpl.
  - apply keeps_registries_refl.
  - eapply keeps_registries_trans; [apply perform_keeps_registries|apply IH].
Qed.

Section Registry.

Variables AddedNodesObserver RemoteWatcher ElementEnabler ElementDisabler
          DisabledElementChecker NavigationAdapter ClickHandler Confirm
          Csrf Method FormSubmitDispatcher : Plugin.
Variable Confirm_callbacks : option (list Callback).
Variable BASE_SELECTORS : gmap string SelectorInterface.
Variable BASE_ACCEPT_HEADERS : gmap string string.

Lemma Mrujs_consistent obj_plugins :
  registry_consistent
    (Mrujs AddedNodesObserver RemoteWatcher ElementEnabler ElementDisabler
       DisabledElementChecker NavigationAdapter ClickHandler Confirm Csrf
       Method FormSubmitDispatcher Confirm_callbacks BASE_SELECTORS
       BASE_ACCEPT_HEADERS obj_plugins).
Proof. done. Qed.

(** C4 (as amended).  Take an object built by [Mrujs] and any session of
    calls on the page.  A [start] that then completes leaves [allPlugins]
    equal to the eleven core plugins, in construction order, followed by
    the extension list, nothing being deduplicated.  When [start] found the
    object disconnected, the extension list is the [plugins] of the
    configuration passed in or, when it has none, the list configured
    before; when it found the object connected, the configuration is
    ignored and both lists are as they were. *)
Theorem start_installs_core_then_extensions
    (obj_plugins : option (list Plugin)) (acts : list Action)
    (this : Ref) (cfg : PartialConfig) (w0 w' : World) (r : Ref) :
  heap w0 !! this =
    Some (Mrujs AddedNodesObserver RemoteWatcher ElementEnabler
            ElementDisabler DisabledElementChecker NavigationAdapter
            ClickHandler Confirm Csrf Method FormSubmitDispatcher
            Confirm_callbacks BASE_SELECTORS BASE_ACCEPT_HEADERS
            obj_plugins) ->
  start this cfg (session acts w0) = Normal r w' ->
  exists o o',
    heap (session acts w0) !! this = Some o /\
    heap w' !! this = Some o' /\
    length (corePlugins o') = 11 /\
    allPlugins o' =
      [AddedNodesObserver; RemoteWatcher; Csrf; ElementEnabler; ClickHandler;
       DisabledElementChecker; Confirm; ElementDisabler; Method;
       FormSubmitDispatcher; NavigationAdapter] ++ plugins o' /\
    plugins o' =
      (if connected o then plugins o
       else default (plugins o) (opt_plugins cfg)) /\
    allPlugins o' =
      (if connected o then allPlugins o
       else corePlugins o ++ default (plugins o) (opt_plugins cfg)).
Proof.
  intros Ho0 (-> & o & Ho & Hcases)%start_Normal.
  pose proof (session_keeps_registries acts w0 this) as Hkeep.
  rewrite Ho0, Ho in Hkeep. destruct Hkeep as [Hcore Hreg].
  destruct (Hreg (Mrujs_consistent obj_plugins)) as [Hall Hplugins].
  simpl in Hcore. exists o.
  destruct Hcases as [[Hc ->]|(Hc & s & Hs & ->)].
  - exists o. simpl. rewrite Hc, Hcore, Hall, Hcore. done.
  - exists (set_connected true (configured o cfg)). simpl.
    rewrite lookup_insert_eq, Hc. simpl.
    unfold started_registry. rewrite Hplugins, Hcore. done.
Qed.

End Registry.

Lemma start_installs_core_then_extensions_witness :
  let acts := [Lifecycle (Start 0 empty_config); Lifecycle Stop] in
  let cfg := {| opt_maskLinkMethods := None; opt_querySelectors := None;
                opt_mimeTypes := None; opt_plugins := Some [double 12; double 12] |} in
  exists o o',
    heap (session acts fresh_page) !! 0 = Some o /\
    heap (after (session acts fresh_page) (start 0 cfg)) !! 0 = Some o' /\
    length (corePlugins o') = 11 /\
    allPlugins o' =
      [double 0; double 1; double 8; double 2; double 6; double 4; double 7;
       double 3; double 9; double 10; double 5] ++ plugins o' /\
    plugins o' =
      (if connected o then plugins o
       else default (plugins o) (opt_plugins cfg)) /\
    allPlugins o' =
      (if connected o then allPlugins o
       else corePlugins o ++ default (plugins o) (opt_plugins cfg)).
Proof.
  intros acts cfg.
  apply (start_installs_core_then_extensions
           (double 0) (double 1) (double 2) (double 3) (double 4) (double 5)
           (double 6) (double 7) (double 8) (double 9) (double 10)
           (Some []) sample_selectors sample_headers
           (Some [extension]) acts 0 cfg fresh_page
           (after (session acts fresh_page) (start 0 cfg)) 0);
    vm_compute; reflexivity.
Defined.

(** C4, as stated, fails: a second [start], on the connected object,
    completes but ignores the extension list it is given. *)
Lemma second_start_ignores_plugins :
  let cfg := {| opt_maskLinkMethods := None; opt_querySelectors := None;
                opt_mimeTypes := None; opt_plugins := Some [double 12] |} in
  returned (start 0 cfg started_page) = true /\
  allPlugins <$> heap (after started_page (start 0 cfg)) !! 0
  <> Some (corePlugins (sample_Mrujs None) ++ [double 12]).
Proof. vm_compute. split; [done|congruence]. Qed.

(** ** Registry theorems *)

Lemma customMimeTypes_lookup (l : list CustomMimeTypeInterface) (s : string) :
  customMimeTypes_of l !! s
  = if bool_decide (s = "__proto__") then None else last_registered s l.
Proof.
  unfold customMimeTypes_of, last_registered.
  induction l as [|e l IH] using rev_ind; [by case_bool_decide|].
  rewrite foldl_app, List.filter_app. simpl. unfold assign.
  destruct (bool_decide (shortcut e = s)) eqn:He.
  - apply bool_decide_eq_true in He. subst s.
    case_bool_decide as Hproto; [done|].
    by rewrite lookup_insert_eq, last_snoc.
  - apply bool_decide_eq_false in He. rewrite app_nil_r.
    destruct (bool_decide (shortcut e = "__proto__")); [done|].
    by rewrite lookup_insert_ne.
Qed.

Lemma appendToQuerySelector_present w r o key entry arg :
  window_mrujs w = Some r -> heap w !! r = Some o ->
  querySelectors o !! key = Some entry ->
  appendToQuerySelector key arg w
  = Normal tt (set_heap
      (<[r := set_querySelectors (<[key := appended entry arg]> (querySelectors o)) o]>
         (heap w)) w).
Proof.
  intros Hr Ho Hk. unfold appendToQuerySelector, bind, mrujs.
  rewrite Hr, Ho, Hk. unfold store, effect, appended.
  by destruct entry, (selector arg), (exclude arg).
Qed.

Lemma appendToQuerySelector_absent w r o key arg :
  window_mrujs w = Some r -> heap w !! r = Some o ->
  querySelectors o !! key = None ->
  appendToQuerySelector key arg w = Normal tt w.
Proof.
  intros Hr Ho Hk. unfold appendToQuerySelector, bind, mrujs.
  by rewrite Hr, Ho, Hk.
Qed.



(** C8 fails on the code at the shortcut ["__proto__"]: the entry
    [{shortcut: "__proto__", header: "x/y"}] is assigned into a plain
    object, where it creates no key, so the returned map has no such
    shortcut; the entry for ["json"] of the same list is merged over the
    map, and the other shortcuts are kept. *)
Example registerMimeTypes_drops_proto :
  let l := [ {| shortcut := "__proto__"; header := "x/y" |};
             {| shortcut := "json"; header := "application/vnd.api+json" |} ] in
  exists m w',
    registerMimeTypes l started_page = Normal m w' /\
    mimeTypes <$> heap w' !! 0 = Some m /\
    m !! "__proto__" = None /\
    m !! "json" = Some "application/vnd.api+json" /\
    m !! "any" = Some "*/*".
Proof. eexists _, _. vm_compute. by repeat split. Qed.

(** X21.  [registerMimeTypes] completes, returns the mime map it has
    stored, and in that map a shortcut other than ["__proto__"] carries the
    header of the last entry of the list that registers it, or, when the
    list has none, the header it carried before; entries whose shortcut is
    ["__proto__"] are never stored. *)
Theorem registerMimeTypes_last_write_wins
    (mimeTypeList : list CustomMimeTypeInterface)
    (w : World) (r : Ref) (o : MrujsInterface) :
  window_mrujs w = Some r -> heap w !! r = Some o ->
  exists m w',
    registerMimeTypes mimeTypeList w = Normal m w' /\
    mimeTypes <$> heap w' !! r = Some m /\
    forall s, m !! s =
      if bool_decide (s = "__proto__") then mimeTypes o !! s
      else match last_registered s mimeTypeList with
           | Some h => Some h
           | None => mimeTypes o !! s
           end.
Proof.
  intros Hr Ho. eexists _, _. split.
  - unfold registerMimeTypes, bind, mrujs, store, effect.
    rewrite Hr, Ho. simpl. rewrite Hr, lookup_insert_eq. reflexivity.
  - simpl. rewrite lookup_insert_eq. split; [done|].
    intros s. unfold mimeTypes at 1. simpl.
    fold (customMimeTypes_of mimeTypeList).
    rewrite lookup_union, customMimeTypes_lookup.
    case_bool_decide; [by destruct (mimeTypes o !! s)|].
    destruct (last_registered s mimeTypeList), (mimeTypes o !! s); done.
Qed.

Lemma registerMimeTypes_last_write_wins_witness :
  let l := [ {| shortcut := "json"; header := "application/json" |};
             {| shortcut := "__proto__"; header := "x/y" |};
             {| shortcut := "json"; header := "application/vnd.api+json" |} ] in
  exists m w',
    registerMimeTypes l started_page = Normal m w' /\
    mimeTypes <$> heap w' !! 0 = Some m /\
    forall s, m !! s =
      if bool_decide (s = "__proto__") then mimeTypes started_Mrujs !! s
      else match last_registered s l with
           | Some h => Some h
           | None => mimeTypes started_Mrujs !! s
           end.
Proof.
  intros l.
  apply (registerMimeTypes_last_write_wins l started_page 0 started_Mrujs);
    vm_compute; reflexivity.
Defined.

(** What [registerConfirm] does on any started page whose selector map
    holds the two click entries. *)
Lemma registerConfirm_completes w r o link button attribute callback :
  window_mrujs w = Some r -> heap w !! r = Some o ->
  querySelectors o !! "linkClickSelector" = Some link ->
  querySelectors o !! "buttonClickSelector" = Some button ->
  exists w' o',
    registerConfirm attribute callback w = Normal tt w' /\
    heap w' !! r = Some o' /\
    querySelectors o' !! "linkClickSelector" =
      Some {| selector := Some (js_string (selector link) +:+ ", " +:+
                                "button[" +:+ attribute +:+ "]:not([form])");
              exclude := exclude link |} /\
    querySelectors o' !! "buttonClickSelector" =
      Some {| selector := Some (js_string (selector button) +:+ ", " +:+
                                "a[" +:+ attribute +:+ "]");
              exclude := exclude button |} /\
    confirm_callbacks o' = (fun cs => cs ++ [callback]) <$> confirm_callbacks o.
Proof.
  intros Hr Ho Hlink Hbutton. unfold registerConfirm, bind.
  erewrite appendToQuerySelector_present by eauto.
  erewrite appendToQuerySelector_present;
    [|done|apply lookup_insert_eq|
     unfold querySelectors; simpl; by rewrite lookup_insert_ne].
  unfold push_confirm_callback. simpl. rewrite Hr, lookup_insert_eq. simpl.
  destruct (confirm_callbacks o) as [cs|] eqn:Hcs;
    (eexists _, _; split; [done|]); simpl; rewrite lookup_insert_eq;
    (split; [done|]); unfold querySelectors; simpl;
    rewrite lookup_insert_eq, lookup_insert_ne, lookup_insert_eq by done;
    rewrite ?Hcs; done.
Qed.

(** C9 fails on the code: [registerConfirm("data-confirm", 7)] appends the
    selector for links to the button-click entry and the selector for
    buttons to the link-click entry; the callback is appended to the
    confirm callbacks. *)
Example registerConfirm_swaps_click_selectors :
  let w' := after started_page (registerConfirm "data-confirm" 7) in
  returned (registerConfirm "data-confirm" 7 started_page) = true /\
  (o ← heap w' !! 0; e ← querySelectors o !! "linkClickSelector"; selector e)
    = Some "a[data-remote], button[data-confirm]:not([form])" /\
  (o ← heap w' !! 0; e ← querySelectors o !! "buttonClickSelector"; selector e)
    = Some "button[data-remote], a[data-confirm]" /\
  (o ← heap w' !! 0; confirm_callbacks o) = Some [7].
Proof. vm_compute. by repeat split. Qed.

(** C10.  On an entry that has no exclude string, appending an exclude
    stores the text ["undefined, "] followed by it; on an entry that has no
    selector string, appending a selector does the same. *)
Theorem appendToQuerySelector_undefined_field (w : World) (r : Ref)
    (o : MrujsInterface) (key : string) (entry : SelectorInterface)
    (e : string) :
  window_mrujs w = Some r -> heap w !! r = Some o ->
  querySelectors o !! key = Some entry ->
  (exclude entry = None ->
   exists w',
     appendToQuerySelector key {| selector := None; exclude := Some e |} w
       = Normal tt w' /\
     querySelectors <$> heap w' !! r =
       Some (<[key := {| selector := selector entry;
                         exclude := Some ("undefined, " +:+ e) |}]>
               (querySelectors o))) /\
  (selector entry = None ->
   exists w',
     appendToQuerySelector key {| selector := Some e; exclude := None |} w
       = Normal tt w' /\
     querySelectors <$> heap w' !! r =
       Some (<[key := {| selector := Some ("undefined, " +:+ e);
                         exclude := exclude entry |}]>
               (querySelectors o))).
Proof.
  intros Hr Ho Hk. split; intros Hnone; eexists;
    (split; [by eapply appendToQuerySelector_present|]);
    simpl; rewrite lookup_insert_eq; simpl;
    unfold appended; simpl; by rewrite Hnone.
Qed.

Lemma appendToQuerySelector_undefined_field_witness :
  (exists w',
     appendToQuerySelector "bare" {| selector := None; exclude := Some "e" |}
       bare_page = Normal tt w' /\
     querySelectors <$> heap w' !! 0 =
       Some (<["bare" := {| selector := None; exclude := Some "undefined, e" |}]>
               (querySelectors bare_Mrujs))) /\
  (exists w',
     appendToQuerySelector "bare" {| selector := Some "e"; exclude := None |}
       bare_page = Normal tt w' /\
     querySelectors <$> heap w' !! 0 =
       Some (<["bare" := {| selector := Some "undefined, e"; exclude := None |}]>
               (querySelectors bare_Mrujs))).
Proof.
  destruct (appendToQuerySelector_undefined_field bare_page 0 bare_Mrujs
              "bare" {| selector := None; exclude := None |} "e")
    as [Hexclude Hselector]; [vm_compute; reflexivity..|].
  split; [apply Hexclude|apply Hselector]; reflexivity.
Defined.

(** ** Further properties of the lifecycle *)

(** X1.  Before the first [start] the global [window.mrujs] is undefined,
    and every other entry point throws a [TypeError]: [connect] and the
    registries before they have done anything, [stop] and [restart] once
    they have removed the [pageshow] listener, a deferred task when it
    runs.  No hook is invoked and no object is touched. *)
Theorem entry_points_throw_before_first_start (w : World) :
  window_mrujs w = None ->
  stop w = Throw TypeError (set_pageshow false w) /\
  restart w = Throw TypeError (set_pageshow false w) /\
  connect w = Throw TypeError w /\
  (forall l, registerMimeTypes l w = Throw TypeError w) /\
  (forall key arg, appendToQuerySelector key arg w = Throw TypeError w) /\
  (forall attribute callback,
     registerConfirm attribute callback w = Throw TypeError w) /\
  (forall nodes, deferred nodes w = Throw TypeError w).
Proof.
  intros Hw.
  assert (disconnect w = Throw TypeError (set_pageshow false w)) as Hd.
  { unfold disconnect, bind, effect, mrujs. simpl. by rewrite Hw. }
  assert (forall key arg, appendToQuerySelector key arg w = Throw TypeError w) as Ha.
  { intros key arg. unfold appendToQuerySelector, bind, mrujs. by rewrite Hw. }
  split; [exact Hd|]. split; [unfold restart, bind; by rewrite Hd|].
  split; [unfold connect, reEnableDisabledElements, bind, mrujs; by rewrite Hw|].
  split; [intros l; unfold registerMimeTypes, bind, mrujs; by rewrite Hw|].
  split; [exact Ha|].
  split; [intros attribute callback; unfold registerConfirm, bind; by rewrite Ha|].
  intros nodes. unfold deferred, bind, mrujs. by rewrite Hw.
Qed.

Lemma entry_points_throw_before_first_start_witness :
  stop fresh_page = Throw TypeError (set_pageshow false fresh_page) /\
  restart fresh_page = Throw TypeError (set_pageshow false fresh_page) /\
  connect fresh_page = Throw TypeError fresh_page /\
  (forall l, registerMimeTypes l fresh_page = Throw TypeError fresh_page) /\
  (forall key arg, appendToQuerySelector key arg fresh_page = Throw TypeError fresh_page) /\
  (forall attribute callback,
     registerConfirm attribute callback fresh_page = Throw TypeError fresh_page) /\
  (forall nodes, deferred nodes fresh_page = Throw TypeError fresh_page).
Proof. apply (entry_points_throw_before_first_start fresh_page). reflexivity. Defined.

(** X2.  [connect] is all or nothing.  When [window.mrujs] is an object
    whose selector map holds the two entries of the sweep and the document
    parses their joined selector, it completes and the [pageshow] listener
    is registered.  In every other case it throws having registered no
    listener, invoked no hook and changed no object: a [SyntaxError] when
    the document rejects the selector, a [TypeError] otherwise. *)
Theorem connect_all_or_nothing (w : World) :
  match (r ← window_mrujs w; o ← heap w !! r; sweep_selector o) with
  | Some s =>
      if valid_selector w s
      then exists w', connect w = Normal tt w' /\ pageshow w' = true
      else connect w = Throw SyntaxError w
  | None => connect w = Throw TypeError w
  end.
Proof.
  destruct (window_mrujs w) as [r|] eqn:Hr; simpl; cycle 1.
  { unfold connect, reEnableDisabledElements, bind, mrujs. by rewrite Hr. }
  destruct (heap w !! r) as [o|] eqn:Ho; simpl; cycle 1.
  { unfold connect, reEnableDisabledElements, bind, mrujs. by rewrite Hr, Ho. }
  destruct (sweep_selector o) as [s|] eqn:Hs; [|by eapply connect_unswept].
  destruct (valid_selector w s) eqn:Hv; [|by eapply connect_rejected].
  erewrite connect_completes by done. by eexists.
Qed.

Lemma configured_empty_config o :
  registry_consistent o -> configured o empty_config = o.
Proof.
  destruct o as [c core pl all [m q mt cp] cb].
  intros [Hall Hplugins]. simpl in Hall, Hplugins. subst all pl.
  reflexivity.
Qed.

Lemma set_connected_involutive b o :
  connected o = b -> set_connected b (set_connected (negb b) o) = o.
Proof. intros <-. by destruct o. Qed.

(** X3.  On a connected object whose sweep selector the document parses,
    [stop] followed by [start] with an empty configuration brings the
    object back exactly as it was: the heap is the one before the two
    calls.  In between, every plugin was disconnected, then initialized,
    then connected. *)
Theorem stop_then_start_restores (w : World) (this : Ref) (o : MrujsInterface)
    (s : string) :
  window_mrujs w = Some this -> heap w !! this = Some o ->
  connected o = true -> registry_consistent o -> sweep_selector o = Some s ->
  valid_selector w s = true ->
  exists w1 w2,
    stop w = Normal tt w1 /\
    start this empty_config w1 = Normal this w2 /\
    heap w2 = heap w /\
    pageshow w2 = true /\
    calls w2 = calls w ++ disconnect_pass (allPlugins o)
                       ++ initialize_pass (allPlugins o)
                       ++ connect_pass (allPlugins o).
Proof.
  intros Hw Ho Hc Hreg Hs Hv.
  assert (registry_consistent (set_connected false o)) as Hreg' by done.
  pose proof (configured_empty_config _ Hreg') as Hcfg.
  eexists _, _. split; [by apply disconnect_completes|].
  split.
  { rewrite start_unfold. simpl. rewrite lookup_insert_eq. simpl.
    erewrite connect_completes; [done|done|apply lookup_insert_eq| |done].
    by rewrite Hcfg. }
  simpl. rewrite !Hcfg. simpl.
  pose proof (set_connected_involutive true o Hc) as Hinv. simpl in Hinv.
  rewrite Hinv, !insert_insert_eq.
  split; [by apply insert_id|]. split; [done|].
  destruct Hreg as [Hall Hp]. unfold started_registry. simpl.
  rewrite <- Hp, <- Hall. by rewrite <- !app_assoc.
Qed.

Lemma stop_then_start_restores_witness :
  exists w1 w2,
    stop started_page = Normal tt w1 /\
    start 0 empty_config w1 = Normal 0 w2 /\
    heap w2 = heap started_page /\
    pageshow w2 = true /\
    calls w2 = calls started_page ++ disconnect_pass (allPlugins started_Mrujs)
                 ++ initialize_pass (allPlugins started_Mrujs)
                 ++ connect_pass (allPlugins started_Mrujs).
Proof.
  apply (stop_then_start_restores started_page 0 started_Mrujs
           "form, a[data-disable]"); vm_compute; (reflexivity || by split).
Defined.

(** ** The listener, the flag and the globals *)

Lemma keeps_switches_refl w : keeps_switches w w.
Proof. done. Qed.

Lemma keeps_switches_trans w1 w2 w3 :
  keeps_switches w1 w2 -> keeps_switches w2 w3 -> keeps_switches w1 w3.
Proof.
  intros (Hp & Hm & HR & Hc) (Hp' & Hm' & HR' & Hc').
  split; [congruence|]. split; [congruence|]. split; [congruence|].
  intros r. by rewrite Hc', Hc.
Qed.

Lemma keeps_switches_same w w' :
  heap w' = heap w -> pageshow w' = pageshow w ->
  window_mrujs w' = window_mrujs w -> window_Rails w' = window_Rails w ->
  keeps_switches w w'.
Proof. intros Hh ? ? ?. do 3 (split; [done|]). intros r. by rewrite Hh. Qed.

Lemma keeps_switches_update w r o o' :
  heap w !! r = Some o -> connected o' = connected o ->
  keeps_switches w (set_heap (<[r := o']> (heap w)) w).
Proof.
  intros Ho Hc. do 3 (split; [done|]). intros r'. simpl.
  destruct (decide (r = r')) as [<-|Hne].
  - rewrite lookup_insert_eq, Ho. simpl. by rewrite Hc.
  - by rewrite lookup_insert_ne.
Qed.

Lemma appendToQuerySelector_keeps_switches key arg w :
  keeps_switches w (after w (appendToQuerySelector key arg)).
Proof.
  unfold after, appendToQuerySelector, bind, mrujs.
  destruct (window_mrujs w) as [r|]; [|done].
  destruct (heap w !! r) as [o|] eqn:Ho; [|done].
  destruct (querySelectors o !! key); [|done].
  by eapply keeps_switches_update.
Qed.

Lemma push_confirm_callback_keeps_switches callback w :
  keeps_switches w (after w (push_confirm_callback callback)).
Proof.
  unfold after, push_confirm_callback.
  destruct (window_mrujs w) as [r|]; [|done].
  destruct (heap w !! r) as [o|] eqn:Ho; [|done].
  destruct (confirm_callbacks o); [|done].
  by eapply keeps_switches_update.
Qed.

Lemma registerConfirm_keeps_switches attribute callback w :
  keeps_switches w (after w (registerConfirm attribute callback)).
Proof.
  unfold registerConfirm. rewrite after_bind.
  match goal with |- context [appendToQuerySelector ?k ?a w] =>
    pose proof (appendToQuerySelector_keeps_switches k a w) as H1;
    unfold after in H1; destruct (appendToQuerySelector k a w) as [[] w1|e w1]
  end; simpl in H1; [|done].
  eapply keeps_switches_trans; [done|]. rewrite after_bind.
  match goal with |- context [appendToQuerySelector ?k ?a w1] =>
    pose proof (appendToQuerySelector_keeps_switches k a w1) as H2;
    unfold after in H2; destruct (appendToQuerySelector k a w1) as [[] w2|e w2]
  end; simpl in H2; [|done].
  eapply keeps_switches_trans; [done|].
  apply push_confirm_callback_keeps_switches.
Qed.

(** The registries and the dispatch leave the switches alone. *)
Lemma perform_keeps_switches a w :
  (forall c, a <> Lifecycle c) -> keeps_switches w (after w (perform a)).
Proof.
  intros Hnot.
  destruct a as [c|ml| |l|key arg|attribute callback]; simpl.
  - by destruct (Hnot c).
  - unfold after. rewrite addedNodesCallback_queues. done.
  - rewrite after_bind. unfold run_timeout.
    destruct (timeouts w) as [|nodes rest]; [done|].
    unfold bind, effect, deferred, bind, mrujs. simpl.
    destruct (window_mrujs w) as [r|]; [|done].
    destruct (heap w !! r) as [o|]; [|done].
    by rewrite for_each_plugin_calls.
  - rewrite after_bind. unfold registerMimeTypes, bind, mrujs, store, effect.
    destruct (window_mrujs w) as [r|] eqn:Hr; [|done].
    destruct (heap w !! r) as [o|] eqn:Ho; [|done].
    simpl. rewrite Hr, lookup_insert_eq. simpl.
    by eapply keeps_switches_update.
  - apply appendToQuerySelector_keeps_switches.
  - apply registerConfirm_keeps_switches.
Qed.

Lemma in_sync_keeps_switches r0 w w' :
  keeps_switches w w' -> in_sync r0 w -> in_sync r0 w'.
Proof.
  intros (Hp & Hm & _ & Hc) (o & Ho & Hsync & Hwin).
  specialize (Hc r0). rewrite Ho in Hc. simpl in Hc.
  destruct (heap w' !! r0) as [o'|] eqn:Ho'; [|done].
  injection Hc as Hc. exists o'. rewrite Hp, Hm, Hc. done.
Qed.

Lemma connect_in_sync r0 w o :
  window_mrujs w = Some r0 -> heap w !! r0 = Some o ->
  pageshow w = false -> connected o = false ->
  in_sync r0 (after w connect).
Proof.
  intros Hw Ho Hp Hc. unfold after.
  destruct (connect_cases w) as [(r & o' & s & Hr & Ho' & _ & _ & ->)|[e ->]]; simpl.
  - rewrite Hw in Hr. injection Hr as <-.
    eexists. simpl. rewrite lookup_insert_eq, Hw. done.
  - exists o. by rewrite Hw, Hp, Hc.
Qed.

Lemma disconnect_in_sync r0 w :
  in_sync r0 w ->
  in_sync r0 (after w disconnect) /\
  (returned (disconnect w) = true ->
   window_mrujs (after w disconnect) = Some r0 /\
   pageshow (after w disconnect) = false /\
   exists o, heap (after w disconnect) !! r0 = Some o /\ connected o = false).
Proof.
  intros (o & Ho & Hsync & Hwin). unfold after.
  destruct (disconnect_cases w) as [(r & o' & Hr & Ho' & ->)| Hthrow]; simpl.
  - rewrite Hr in Hwin. subst r. split.
    + eexists. simpl. rewrite lookup_insert_eq, Hr. done.
    + intros _. rewrite Hr, lookup_insert_eq. eauto.
  - rewrite Hthrow. simpl. split; [|done].
    destruct (window_mrujs w) as [r|] eqn:Hr.
    + subst r. by rewrite (disconnect_completes w r0 o) in Hthrow.
    + exists o. simpl. by rewrite Hr, Hwin.
Qed.

Lemma lifecycle_in_sync r0 c w :
  on_object r0 (Lifecycle c) -> in_sync r0 w -> in_sync r0 (after w (lifecycle c)).
Proof.
  intros Hon Hsync. destruct c as [this cfg| |]; simpl in *.
  - subst this. destruct Hsync as (o & Ho & Hp & Hwin).
    rewrite after_bind, start_unfold, Ho.
    destruct (connected o) eqn:Hc.
    { exists o. simpl. by rewrite Ho, Hp. }
    pose proof (connect_in_sync r0 (initialized_world r0 o cfg w)
                  (configured o cfg)) as Hk.
    unfold after in Hk.
    destruct (connect (initialized_world r0 o cfg w)) as [[] w1|e w1];
      apply Hk; simpl; by rewrite ?lookup_insert_eq.
  - by apply disconnect_in_sync.
  - unfold restart. rewrite after_bind.
    destruct (disconnect_in_sync r0 w Hsync) as [Hd Hdone].
    unfold after in Hd, Hdone.
    destruct (disconnect w) as [[] w1|e w1]; simpl in *; [|done].
    destruct Hdone as (Hw1 & Hp1 & o1 & Ho1 & Hc1); [done|].
    by eapply connect_in_sync.
Qed.

Lemma perform_in_sync r0 a w :
  on_object r0 a -> in_sync r0 w -> in_sync r0 (after w (perform a)).
Proof.
  intros Hon Hsync. destruct a as [c| | | | |];
    [by apply lifecycle_in_sync|..];
    (eapply in_sync_keeps_switches; [apply perform_keeps_switches|]; done).
Qed.

(** X4.  On a page that has one Mrujs object to start, the [pageshow]
    listener is registered exactly when that object is connected, whatever
    calls the page makes: lifecycle calls, completed or thrown, registry
    calls, mutations and event-loop turns. *)
Theorem listener_follows_connected (r0 : Ref) (acts : list Action)
    (w : World) (o : MrujsInterface) :
  heap w !! r0 = Some o -> connected o = false ->
  pageshow w = false -> window_mrujs w = None ->
  Forall (on_object r0) acts ->
  exists o', heap (session acts w) !! r0 = Some o' /\
             pageshow (session acts w) = connected o'.
Proof.
  intros Ho Hc Hp Hw Hacts.
  assert (in_sync r0 w) as Hsync by (exists o; by rewrite Hw, Hp, Hc).
  assert (in_sync r0 (session acts w)) as (o' & Ho' & Hp' & _); [|eauto].
  clear Ho Hc Hp Hw. unfold session. revert w Hsync.
  induction Hacts as [|a acts Ha _ IH]; intros w Hsync; simpl; [done|].
  apply IH. by apply perform_in_sync.
Qed.

Lemma listener_follows_connected_witness :
  let acts := [Lifecycle Restart; Lifecycle (Start 0 empty_config);
               Mutations [ {| type := childList; target := 1; addedNodes := [2] |} ];
               RegisterConfirm "data-ask" 7; Lifecycle Stop; Turn;
               Lifecycle Stop; Lifecycle Restart] in
  exists o', heap (session acts fresh_page) !! 0 = Some o' /\
             pageshow (session acts fresh_page) = connected o'.
Proof.
  intros acts.
  apply (listener_follows_connected 0 acts fresh_page
           (sample_Mrujs (Some [extension]))); try reflexivity.
  repeat constructor.
Defined.

Lemma lifecycle_globals_alias c w :
  window_Rails w = window_mrujs w ->
  window_Rails (after w (lifecycle c)) = window_mrujs (after w (lifecycle c)).
Proof.
  intros Hw. destruct c as [this cfg| |]; simpl.
  - rewrite after_bind, start_unfold.
    destruct (heap w !! this) as [o|]; [|done].
    destruct (connected o); [done|].
    by destruct (connect_cases (initialized_world this o cfg w))
      as [(r & o' & s & _ & _ & _ & _ & ->)|[e ->]].
  - unfold after, stop.
    by destruct (disconnect_cases w) as [(r & o & _ & _ & ->)| ->].
  - unfold restart. rewrite after_bind.
    destruct (disconnect_cases w) as [(r & o & _ & _ & ->)| ->]; [|done].
    unfold after.
    by destruct (connect_cases (disconnected_world r o w))
      as [(r' & o' & s & _ & _ & _ & _ & ->)|[e ->]].
Qed.

(** X5.  [window.Rails] and [window.mrujs] always refer to the same
    object: [start] assigns both, and no other call assigns either. *)
Theorem Rails_is_mrujs (acts : list Action) (w : World) :
  window_Rails w = window_mrujs w ->
  window_Rails (session acts w) = window_mrujs (session acts w).
Proof.
  unfold session. revert w.
  induction acts as [|a acts IH]; intros w Hw; simpl; [done|].
  apply IH. destruct a as [c|ml| |l|key arg|attribute callback];
    [by apply lifecycle_globals_alias|..];
    (match goal with |- context [perform ?a] =>
       destruct (perform_keeps_switches a w) as (_ & Hm & HR & _); [done|]
     end; by rewrite Hm, HR).
Qed.

Lemma Rails_is_mrujs_witness :
  let acts := [Lifecycle Stop; Lifecycle (Start 0 empty_config);
               RegisterMimeTypes []; Lifecycle (Start 5 empty_config);
               Lifecycle Restart] in
  window_Rails (session acts fresh_page) = window_mrujs (session acts fresh_page).
Proof.
  intros acts. apply (Rails_is_mrujs acts fresh_page). reflexivity.
Defined.

(** X6.  [stop] ignores the object it is called on: it disconnects the
    object [start] was last called on.  A [start] on a second, disconnected
    object whose sweep selector the document parses completes, and the
    [stop] that follows disconnects that object and leaves every other
    object, connected or not, exactly as it was. *)
Theorem stop_disconnects_last_started (w : World) (a b : Ref)
    (oa ob : MrujsInterface) (cfg : PartialConfig) (s : string) :
  a <> b -> heap w !! a = Some oa -> heap w !! b = Some ob ->
  connected ob = false -> sweep_selector (configured ob cfg) = Some s ->
  valid_selector w s = true ->
  exists w1 w2,
    start b cfg w = Normal b w1 /\
    stop w1 = Normal tt w2 /\
    heap w2 !! a = Some oa /\
    connected <$> heap w2 !! b = Some false /\
    pageshow w2 = false /\
    calls w2 = calls w ++ initialize_pass (started_registry ob cfg)
                       ++ connect_pass (started_registry ob cfg)
                       ++ disconnect_pass (started_registry ob cfg).
Proof.
  intros Hab Ha Hb Hc Hs Hv. eexists _, _.
  split.
  { rewrite start_unfold, Hb, Hc.
    erewrite connect_completes; [done|done|apply lookup_insert_eq|done|done]. }
  split; [apply disconnect_completes; [done|apply lookup_insert_eq]|].
  simpl. rewrite lookup_insert_eq. simpl.
  rewrite !lookup_insert_ne by done.
  by rewrite <- !app_assoc.
Qed.

Lemma stop_disconnects_last_started_witness :
  exists w1 w2,
    start 1 empty_config two_objects = Normal 1 w1 /\
    stop w1 = Normal tt w2 /\
    heap w2 !! 0 = Some started_Mrujs /\
    connected <$> heap w2 !! 1 = Some false /\
    pageshow w2 = false /\
    calls w2 = calls two_objects
                 ++ initialize_pass (started_registry (sample_Mrujs None) empty_config)
                 ++ connect_pass (started_registry (sample_Mrujs None) empty_config)
                 ++ disconnect_pass (started_registry (sample_Mrujs None) empty_config).
Proof.
  apply (stop_disconnects_last_started two_objects 0 1 started_Mrujs
           (sample_Mrujs None) empty_config "form, a[data-disable]");
    (done || (vm_compute; reflexivity)).
Defined.

(** X7.  A deferred task does not look at the connected flag: tasks queued
    before [stop] still deliver their batches, to every plugin's
    [observerCallback], when the event loop runs them after [stop]. *)
Theorem deferred_tasks_survive_stop (mutationList : list MutationRecord)
    (w : World) (r : Ref) (o : MrujsInterface) :
  window_mrujs w = Some r -> heap w !! r = Some o -> timeouts w = [] ->
  exists w1 w2 w3,
    addedNodesCallback mutationList w = Normal tt w1 /\
    stop w1 = Normal tt w2 /\
    connected <$> heap w2 !! r = Some false /\
    event_loop (length mutationList) w2 = Normal tt w3 /\
    calls w3 = calls w ++ disconnect_pass (allPlugins o) ++
      concat ((fun m => observer_pass (addedNodes_of m) (allPlugins o))
                <$> mutationList).
Proof.
  intros Hr Ho Ht.
  exists (set_timeouts (addedNodes_of <$> mutationList) w). eexists _, _.
  split; [by rewrite addedNodesCallback_queues, Ht|].
  split; [by apply disconnect_completes|].
  split; [simpl; by rewrite lookup_insert_eq|].
  match goal with |- event_loop _ ?w2 = _ /\ _ =>
    pose proof (event_loop_drains w2 r (set_connected false o) Hr) as Hloop
  end.
  simpl in Hloop. rewrite lookup_insert_eq in Hloop.
  rewrite length_fmap in Hloop. split; [by apply Hloop|].
  simpl. rewrite <- list_fmap_compose. by rewrite <- app_assoc.
Qed.

Lemma deferred_tasks_survive_stop_witness :
  let ml := [ {| type := attributes; target := 5; addedNodes := [] |};
              {| type := childList; target := 6; addedNodes := [1; 2] |} ] in
  exists w1 w2 w3,
    addedNodesCallback ml started_page = Normal tt w1 /\
    stop w1 = Normal tt w2 /\
    connected <$> heap w2 !! 0 = Some false /\
    event_loop (length ml) w2 = Normal tt w3 /\
    calls w3 = calls started_page ++ disconnect_pass (allPlugins started_Mrujs) ++
      concat ((fun m => observer_pass (addedNodes_of m) (allPlugins started_Mrujs))
                <$> ml).
Proof.
  intros ml.
  apply (deferred_tasks_survive_stop ml started_page 0 started_Mrujs);
    vm_compute; reflexivity.
Defined.

(** X8.  A deferred task reads the registry when it runs, not when it was
    queued: batches queued before a [start] on a disconnected object (one
    whose sweep selector the document parses, so that the [start]
    completes) are delivered to the registry that [start] installed. *)
Theorem deferred_tasks_see_current_registry (mutationList : list MutationRecord)
    (w : World) (this : Ref) (o : MrujsInterface) (cfg : PartialConfig)
    (s : string) :
  heap w !! this = Some o -> connected o = false ->
  sweep_selector (configured o cfg) = Some s -> valid_selector w s = true ->
  timeouts w = [] ->
  exists w1 w2 w3,
    addedNodesCallback mutationList w = Normal tt w1 /\
    start this cfg w1 = Normal this w2 /\
    event_loop (length mutationList) w2 = Normal tt w3 /\
    calls w3 = calls w ++ initialize_pass (started_registry o cfg)
                       ++ connect_pass (started_registry o cfg) ++
      concat ((fun m => observer_pass (addedNodes_of m) (started_registry o cfg))
                <$> mutationList).
Proof.
  intros Ho Hc Hs Hv Ht.
  exists (set_timeouts (addedNodes_of <$> mutationList) w). eexists _, _.
  split; [by rewrite addedNodesCallback_queues, Ht|].
  split.
  { rewrite start_unfold. simpl. rewrite Ho, Hc.
    erewrite connect_completes; [done|done|apply lookup_insert_eq|done|done]. }
  match goal with |- event_loop _ ?w2 = _ /\ _ =>
    pose proof (event_loop_drains w2 this
                  (set_connected true (configured o cfg)) eq_refl) as Hloop
  end.
  simpl in Hloop. rewrite lookup_insert_eq in Hloop.
  rewrite length_fmap in Hloop. split; [by apply Hloop|].
  simpl. rewrite <- list_fmap_compose. by rewrite <- !app_assoc.
Qed.

Lemma deferred_tasks_see_current_registry_witness :
  let ml := [ {| type := childList; target := 6; addedNodes := [1; 2] |} ] in
  let cfg := {| opt_maskLinkMethods := None; opt_querySelectors := None;
                opt_mimeTypes := None; opt_plugins := Some [double 12] |} in
  exists w1 w2 w3,
    addedNodesCallback ml fresh_page = Normal tt w1 /\
    start 0 cfg w1 = Normal 0 w2 /\
    event_loop (length ml) w2 = Normal tt w3 /\
    calls w3 = calls fresh_page
                 ++ initialize_pass (started_registry (sample_Mrujs (Some [extension])) cfg)
                 ++ connect_pass (started_registry (sample_Mrujs (Some [extension])) cfg) ++
      concat ((fun m => observer_pass (addedNodes_of m)
                          (started_registry (sample_Mrujs (Some [extension])) cfg))
                <$> ml).
Proof.
  intros ml cfg.
  apply (deferred_tasks_see_current_registry ml fresh_page 0
           (sample_Mrujs (Some [extension])) cfg "form, a[data-disable]");
    vm_compute; reflexivity.
Defined.

(** X9.  [start] merges the configuration shallowly.  A [start] that
    completes on a disconnected object replaces each of the mime map, the
    selector map and [maskLinkMethods] wholesale when the configuration
    passed in has the key (nothing of the previous map survives), and
    keeps the previous value when it has not; the confirm callbacks are
    never touched. *)
Theorem start_merges_shallowly (this : Ref) (cfg : PartialConfig)
    (w w' : World) (o : MrujsInterface) (r : Ref) :
  heap w !! this = Some o -> connected o = false ->
  start this cfg w = Normal r w' ->
  exists o',
    heap w' !! this = Some o' /\ connected o' = true /\
    mimeTypes o' = default (mimeTypes o) (opt_mimeTypes cfg) /\
    querySelectors o' = default (querySelectors o) (opt_querySelectors cfg) /\
    cfg_maskLinkMethods (config o')
    = default (cfg_maskLinkMethods (config o)) (opt_maskLinkMethods cfg) /\
    confirm_callbacks o' = confirm_callbacks o.
Proof.
  intros Ho Hc (-> & o1 & Ho1 & Hcases)%start_Normal.
  rewrite Ho in Ho1. injection Ho1 as <-.
  destruct Hcases as [[Hc' _]|(_ & s & _ & ->)]; [congruence|].
  eexists. simpl. rewrite lookup_insert_eq. done.
Qed.

Lemma start_merges_shallowly_witness :
  let cfg := {| opt_maskLinkMethods := Some false; opt_querySelectors := None;
                opt_mimeTypes := Some (<["csv" := "text/csv"]> ∅);
                opt_plugins := None |} in
  exists o',
    heap (after (after started_page stop) (start 0 cfg)) !! 0 = Some o' /\
    connected o' = true /\
    mimeTypes o'
    = default (mimeTypes (set_connected false started_Mrujs)) (opt_mimeTypes cfg) /\
    querySelectors o'
    = default (querySelectors (set_connected false started_Mrujs))
              (opt_querySelectors cfg) /\
    cfg_maskLinkMethods (config o')
    = default (cfg_maskLinkMethods (config (set_connected false started_Mrujs)))
              (opt_maskLinkMethods cfg) /\
    confirm_callbacks o' = confirm_callbacks (set_connected false started_Mrujs).
Proof.
  intros cfg.
  apply (start_merges_shallowly 0 cfg (after started_page stop)
           (after (after started_page stop) (start 0 cfg))
           (set_connected false started_Mrujs) 0);
    vm_compute; reflexivity.
Defined.

(** ** Further properties of the registries *)

Lemma set_querySelectors_id o : set_querySelectors (querySelectors o) o = o.
Proof. by destruct o as [? ? ? ? [] ?]. Qed.

Lemma set_mimeTypes_id o : set_mimeTypes (mimeTypes o) o = o.
Proof. by destruct o as [? ? ? ? [] ?]. Qed.

Lemma set_heap_id w r o :
  heap w !! r = Some o -> set_heap (<[r := o]> (heap w)) w = w.
Proof. intros Ho. unfold set_heap. rewrite insert_id by done. apply world_eta. Qed.

(** X10.  Registering an empty list of mime types changes nothing, and
    returns the map as it is. *)
Theorem registerMimeTypes_nil (w : World) (r : Ref) (o : MrujsInterface) :
  window_mrujs w = Some r -> heap w !! r = Some o ->
  registerMimeTypes [] w = Normal (mimeTypes o) w.
Proof.
  intros Hr Ho. unfold registerMimeTypes, bind, mrujs, store, effect.
  rewrite Hr, Ho. simpl. rewrite Hr, lookup_insert_eq.
  rewrite (left_id_L ∅ (∪)), set_mimeTypes_id. unfold ret.
  by rewrite set_heap_id.
Qed.

Lemma registerMimeTypes_nil_witness :
  registerMimeTypes [] started_page = Normal (mimeTypes started_Mrujs) started_page.
Proof.
  apply (registerMimeTypes_nil started_page 0 started_Mrujs);
    vm_compute; reflexivity.
Defined.

Lemma registerMimeTypes_completes l w r o :
  window_mrujs w = Some r -> heap w !! r = Some o ->
  registerMimeTypes l w
  = Normal (customMimeTypes_of l ∪ mimeTypes o)
      (set_heap (<[r := set_mimeTypes (customMimeTypes_of l ∪ mimeTypes o) o]>
                   (heap w)) w).
Proof.
  intros Hr Ho. unfold registerMimeTypes, bind, mrujs, store, effect.
  rewrite Hr, Ho. simpl. by rewrite Hr, lookup_insert_eq.
Qed.

Lemma registerMimeTypes_Normal l w m w1 :
  registerMimeTypes l w = Normal m w1 ->
  exists r o, window_mrujs w = Some r /\ heap w !! r = Some o.
Proof.
  unfold registerMimeTypes, bind, mrujs.
  destruct (window_mrujs w) as [r|] eqn:Hr; [|done].
  destruct (heap w !! r) as [o|] eqn:Ho; [|done]. intros _. by exists r, o.
Qed.

(** X11.  Registering mime types is idempotent: a second registration of
    the same list returns the same map and leaves the world as the first
    left it. *)
Theorem registerMimeTypes_idempotent (l : list CustomMimeTypeInterface)
    (w w1 : World) (m : gmap string string) :
  registerMimeTypes l w = Normal m w1 ->
  registerMimeTypes l w1 = Normal m w1.
Proof.
  intros Hfirst.
  destruct (registerMimeTypes_Normal _ _ _ _ Hfirst) as (r & o & Hr & Ho).
  rewrite (registerMimeTypes_completes l w r o Hr Ho) in Hfirst.
  injection Hfirst as <- <-.
  erewrite registerMimeTypes_completes; [|done|apply lookup_insert_eq].
  assert (forall M, mimeTypes (set_mimeTypes M o) = M) as Hread by done.
  rewrite !Hread, (assoc_L (∪)), (idemp_L (∪)).
  unfold set_heap, set_mimeTypes. simpl. by rewrite insert_insert_eq.
Qed.

Lemma registerMimeTypes_idempotent_witness :
  let l := [ {| shortcut := "json"; header := "application/vnd.api+json" |} ] in
  registerMimeTypes l (after started_page (registerMimeTypes l))
  = Normal (<["json" := "application/vnd.api+json"]> sample_headers)
      (after started_page (registerMimeTypes l)).
Proof.
  intros l.
  apply (registerMimeTypes_idempotent l started_page). vm_compute. reflexivity.
Defined.

(** X12.  [appendToQuerySelector] with neither a selector nor an exclude
    changes nothing, whether or not the key is in the map. *)
Theorem appendToQuerySelector_nothing_to_append (w : World) (r : Ref)
    (o : MrujsInterface) (key : string) :
  window_mrujs w = Some r -> heap w !! r = Some o ->
  appendToQuerySelector key {| selector := None; exclude := None |} w
  = Normal tt w.
Proof.
  intros Hr Ho.
  destruct (querySelectors o !! key) as [entry|] eqn:Hk.
  - erewrite appendToQuerySelector_present by done.
    unfold appended. simpl.
    replace {| selector := selector entry; exclude := exclude entry |}
      with entry by (by destruct entry).
    rewrite (insert_id (querySelectors o)) by done.
    by rewrite set_querySelectors_id, set_heap_id.
  - by eapply appendToQuerySelector_absent.
Qed.

Lemma appendToQuerySelector_nothing_to_append_witness :
  appendToQuerySelector "linkClickSelector" {| selector := None; exclude := None |}
    started_page = Normal tt started_page.
Proof.
  apply (appendToQuerySelector_nothing_to_append started_page 0 started_Mrujs);
    vm_compute; reflexivity.
Defined.

(** X13.  What [appendToQuerySelector] does to the object [window.mrujs].
    It never adds a key to its selector map and never touches the entry
    under another key; of the entry it appends to, the field that was not
    supplied is left as it is; the mime map, the plugin lists, the
    connected flag and the confirm callbacks of the object are as before.
    It invokes no hook, queues no task and leaves the [pageshow] listener
    and the globals alone. *)
Theorem appendToQuerySelector_frame (w : World) (r : Ref)
    (o : MrujsInterface) (key : string) (arg : SelectorInterface) :
  window_mrujs w = Some r -> heap w !! r = Some o ->
  exists w' o',
    appendToQuerySelector key arg w = Normal tt w' /\
    heap w' !! r = Some o' /\
    dom (querySelectors o') = dom (querySelectors o) /\
    (forall k, k <> key -> querySelectors o' !! k = querySelectors o !! k) /\
    (selector arg = None ->
     selector <$> querySelectors o' !! key = selector <$> querySelectors o !! key) /\
    (exclude arg = None ->
     exclude <$> querySelectors o' !! key = exclude <$> querySelectors o !! key) /\
    (mimeTypes o' = mimeTypes o /\ connected o' = connected o /\
     corePlugins o' = corePlugins o /\ plugins o' = plugins o /\
     allPlugins o' = allPlugins o /\
     confirm_callbacks o' = confirm_callbacks o) /\
    (calls w' = calls w /\ timeouts w' = timeouts w /\
     pageshow w' = pageshow w /\ window_mrujs w' = window_mrujs w /\
     window_Rails w' = window_Rails w).
Proof.
  intros Hr Ho.
  destruct (querySelectors o !! key) as [entry|] eqn:Hk.
  - eexists _, _.
    split; [by apply appendToQuerySelector_present|].
    simpl. rewrite lookup_insert_eq. split; [done|].
    assert (forall qs, querySelectors (set_querySelectors qs o) = qs) as Hread
      by done.
    rewrite !Hread.
    split; [by apply dom_insert_lookup_L|].
    split; [intros k Hne; by rewrite lookup_insert_ne|].
    rewrite lookup_insert_eq. unfold appended. simpl.
    split; [by intros ->|]. split; [by intros ->|]. done.
  - exists w, o.
    split; [by eapply appendToQuerySelector_absent|]. by rewrite Hk.
Qed.

Lemma appendToQuerySelector_frame_witness :
  let arg := {| selector := Some "x"; exclude := None |} in
  exists w' o',
    appendToQuerySelector "linkClickSelector" arg started_page = Normal tt w' /\
    heap w' !! 0 = Some o' /\
    dom (querySelectors o') = dom (querySelectors started_Mrujs) /\
    (forall k, k <> "linkClickSelector" ->
       querySelectors o' !! k = querySelectors started_Mrujs !! k) /\
    (selector arg = None ->
     selector <$> querySelectors o' !! "linkClickSelector"
     = selector <$> querySelectors started_Mrujs !! "linkClickSelector") /\
    (exclude arg = None ->
     exclude <$> querySelectors o' !! "linkClickSelector"
     = exclude <$> querySelectors started_Mrujs !! "linkClickSelector") /\
    (mimeTypes o' = mimeTypes started_Mrujs /\
     connected o' = connected started_Mrujs /\
     corePlugins o' = corePlugins started_Mrujs /\
     plugins o' = plugins started_Mrujs /\
     allPlugins o' = allPlugins started_Mrujs /\
     confirm_callbacks o' = confirm_callbacks started_Mrujs) /\
    (calls w' = calls started_page /\ timeouts w' = timeouts started_page /\
     pageshow w' = pageshow started_page /\
     window_mrujs w' = window_mrujs started_page /\
     window_Rails w' = window_Rails started_page).
Proof.
  intros arg.
  apply (appendToQuerySelector_frame started_page 0 started_Mrujs
           "linkClickSelector" arg); vm_compute; reflexivity.
Defined.

Lemma appendToQuerySelector_installed w r o key arg :
  window_mrujs w = Some r -> heap w !! r = Some o ->
  exists qs',
    appendToQuerySelector key arg w
    = Normal tt (set_heap (<[r := set_querySelectors qs' o]> (heap w)) w).
Proof.
  intros Hr Ho.
  destruct (querySelectors o !! key) as [entry|] eqn:Hk.
  - eexists. by apply appendToQuerySelector_present.
  - exists (querySelectors o).
    erewrite appendToQuerySelector_absent by done.
    by rewrite set_querySelectors_id, set_heap_id.
Qed.

Lemma registerConfirm_callbacks w r o attribute callback :
  window_mrujs w = Some r -> heap w !! r = Some o ->
  exists w' o',
    registerConfirm attribute callback w = Normal tt w' /\
    window_mrujs w' = Some r /\ heap w' !! r = Some o' /\
    confirm_callbacks o' = (fun cs => cs ++ [callback]) <$> confirm_callbacks o.
Proof.
  intros Hr Ho. unfold registerConfirm, bind.
  match goal with |- context [appendToQuerySelector ?k ?a w] =>
    destruct (appendToQuerySelector_installed w r o k a Hr Ho) as (qs1 & ->)
  end.
  match goal with |- context [appendToQuerySelector ?k ?a ?w1] =>
    destruct (appendToQuerySelector_installed w1 r (set_querySelectors qs1 o) k a)
      as (qs2 & ->); [done|apply lookup_insert_eq|]
  end.
  unfold push_confirm_callback. simpl. rewrite Hr, lookup_insert_eq. simpl.
  destruct (confirm_callbacks o) as [cs|] eqn:Hcs.
  - eexists _, _. split; [done|]. simpl. rewrite lookup_insert_eq.
    split; [done|]. split; [done|]. done.
  - eexists _, _. split; [done|]. simpl. rewrite lookup_insert_eq.
    split; [done|]. split; [done|]. simpl. by rewrite Hcs.
Qed.

(** X14.  Once [window.mrujs] is set, [registerConfirm] completes whatever
    the selector map holds, the two click entries included or not, and
    appends its callback to the confirm callbacks; a second registration
    appends after the first, the same callback twice if it is given twice. *)
Theorem registerConfirm_accumulates (w : World) (r : Ref) (o : MrujsInterface)
    (a1 a2 : string) (cb1 cb2 : Callback) :
  window_mrujs w = Some r -> heap w !! r = Some o ->
  exists w1 w2 o2,
    registerConfirm a1 cb1 w = Normal tt w1 /\
    registerConfirm a2 cb2 w1 = Normal tt w2 /\
    heap w2 !! r = Some o2 /\
    confirm_callbacks o2 = (fun cs => cs ++ [cb1; cb2]) <$> confirm_callbacks o.
Proof.
  intros Hr Ho.
  destruct (registerConfirm_callbacks w r o a1 cb1 Hr Ho)
    as (w1 & o1 & H1 & Hr1 & Ho1 & Hcb1).
  destruct (registerConfirm_callbacks w1 r o1 a2 cb2 Hr1 Ho1)
    as (w2 & o2 & H2 & _ & Ho2 & Hcb2).
  exists w1, w2, o2. rewrite Hcb2, Hcb1.
  destruct (confirm_callbacks o); simpl; [|done].
  by rewrite <- app_assoc.
Qed.

Lemma registerConfirm_accumulates_witness :
  exists w1 w2 o2,
    registerConfirm "data-ask" 7 started_page = Normal tt w1 /\
    registerConfirm "data-ask" 7 w1 = Normal tt w2 /\
    heap w2 !! 0 = Some o2 /\
    confirm_callbacks o2
    = (fun cs => cs ++ [7; 7]) <$> confirm_callbacks started_Mrujs.
Proof.
  apply (registerConfirm_accumulates started_page 0 started_Mrujs
           "data-ask" "data-ask" 7 7); vm_compute; reflexivity.
Defined.

(** ** Properties of [fetch] *)

Section FetchProperties.

Variables Input Request FetchRequestObject : Type.
Variable FetchRequest : Input -> gmap string JsValue -> FetchRequestObject.
Variable request : FetchRequestObject -> Request.
Variable documentElement : nat.
Variable ajaxBeforeSend : string.

Lemma options_left_stripped input options :
  options_left (fetch FetchRequest request documentElement ajaxBeforeSend
                  input options)
  = delete "dispatchEvents" (delete "submitter" (delete "element" options)).
Proof. unfold fetch. by case_bool_decide. Qed.

(** X15.  [fetch] strips [element], [submitter] and [dispatchEvents] from
    the options object and keeps every other key; the request is built
    from the stripped options.  It then does exactly one thing.  When
    [dispatchEvents] was the boolean [true], it dispatches one event, on
    the element given or on the document element when none was given (never
    on [null] or [undefined]), makes no network request and returns
    [undefined].  Otherwise it makes one network request, dispatches
    nothing and returns the promise of that request. *)
Theorem fetch_dispatches_or_requests (input : Input)
    (options : gmap string JsValue) :
  let out := fetch FetchRequest request documentElement ajaxBeforeSend
               input options in
  let fetchRequest := FetchRequest input (options_left out) in
  options_left out !! "element" = None /\
  options_left out !! "submitter" = None /\
  options_left out !! "dispatchEvents" = None /\
  (forall k, k <> "element" -> k <> "submitter" -> k <> "dispatchEvents" ->
             options_left out !! k = options !! k) /\
  if bool_decide (options !! "dispatchEvents" = Some (JsBool true)) then
    promise out = None /\
    exists el,
      effects out =
        [Dispatch el ajaxBeforeSend
           {| detail_element := el;
              detail_fetchRequest := fetchRequest;
              detail_request := request fetchRequest;
              detail_submitter := get options "submitter" |}] /\
      is_nullish el = false /\
      el = (if is_nullish (get options "element") then JsObject documentElement
            else get options "element")
  else
    promise out = Some (request fetchRequest) /\
    effects out = [WindowFetch (request fetchRequest)].
Proof.
  intros out fetchRequest. subst fetchRequest out.
  rewrite options_left_stripped.
  split; [rewrite 2!lookup_delete_ne by done; apply lookup_delete_eq|].
  split; [rewrite lookup_delete_ne by done; apply lookup_delete_eq|].
  split; [apply lookup_delete_eq|].
  split; [intros k ? ? ?; by rewrite !lookup_delete_ne|].
  unfold fetch, get.
  destruct (options !! "dispatchEvents") as [[| |[]| |]|] eqn:Hd; simpl;
    try done.
  split; [done|]. eexists. split; [done|]. split; [|done].
  by destruct (options !! "element") as [[]|].
Qed.

(** X16.  The options object is changed in place, so a second call with
    the same object never dispatches: whatever [dispatchEvents] was for the
    first call, the second makes a network request, and the object is not
    changed further. *)
Theorem fetch_again_goes_to_network (input1 input2 : Input)
    (options : gmap string JsValue) :
  let out1 := fetch FetchRequest request documentElement ajaxBeforeSend
                input1 options in
  let out2 := fetch FetchRequest request documentElement ajaxBeforeSend
                input2 (options_left out1) in
  options_left out2 = options_left out1 /\
  promise out2 = Some (request (FetchRequest input2 (options_left out1))) /\
  effects out2 = [WindowFetch (request (FetchRequest input2 (options_left out1)))].
Proof.
  intros out1 out2. subst out1 out2.
  rewrite (options_left_stripped input1 options).
  set (stripped := delete "dispatchEvents"
                     (delete "submitter" (delete "element" options))).
  assert (stripped !! "dispatchEvents" = None) as Hd
    by apply lookup_delete_eq.
  assert (stripped !! "submitter" = None) as Hs
    by (unfold stripped; rewrite lookup_delete_ne by done;
        apply lookup_delete_eq).
  assert (stripped !! "element" = None) as He
    by (unfold stripped; rewrite 2!lookup_delete_ne by done;
        apply lookup_delete_eq).
  assert (delete "dispatchEvents" (delete "submitter" (delete "element" stripped))
          = stripped) as Hsame.
  { rewrite (delete_id stripped "element") by done.
    rewrite (delete_id stripped "submitter") by done.
    by rewrite delete_id. }
  rewrite options_left_stripped, Hsame. split; [done|].
  unfold fetch, get. rewrite Hd, Hsame. done.
Qed.

End FetchProperties.

(** ** Properties of the submit-event polyfill *)

Section PolyfillProperties.

Import SubmitEvent.

Lemma find_Some_nearest {A} (p : A -> bool) (l : list A) (x : A) :
  List.find p l = Some x <->
  exists nearer farther,
    l = nearer ++ x :: farther /\
    Forall (fun y => p y = false) nearer /\ p x = true.
Proof.
  induction l as [|y l IH]; simpl.
  - split; [done|]. intros (nearer & farther & Hl & _). by destruct nearer.
  - destruct (p y) eqn:Hy.
    + split.
      * intros [= ->]. by exists [], l.
      * intros ([|z nearer] & farther & Hl & Hnear & Hx).
        -- by injection Hl as -> _.
        -- injection Hl as -> _. apply Forall_cons in Hnear as [Hz _].
           congruence.
    + rewrite IH. split.
      * intros (nearer & farther & -> & Hnear & Hx).
        exists (y :: nearer), farther. split; [done|].
        split; [by constructor|done].
      * intros ([|z nearer] & farther & Hl & Hnear & Hx).
        -- injection Hl as -> _. congruence.
        -- injection Hl as -> ->. apply Forall_cons in Hnear as [_ Hnear].
           by exists nearer, farther.
Qed.

Lemma findSubmitter_find target :
  findSubmitterFromClickTarget target =
  match List.find input_or_button (click_chain target) with
  | Some c => if bool_decide (type c = Some "submit") then Some c else None
  | None => None
  end.
Proof.
  unfold findSubmitterFromClickTarget, click_chain, closest, parentElement.
  destruct target as [[[e|i] ancestors|]|]; try done.
  by destruct ancestors as [|[p|j] rest].
Qed.

Lemma findSubmitter_type target c :
  findSubmitterFromClickTarget target = Some c -> type c = Some "submit".
Proof.
  rewrite findSubmitter_find.
  destruct (List.find input_or_button (click_chain target)) as [c'|]; [|done].
  case_bool_decide as Ht; [|done]. by intros [= ->].
Qed.

(** X17.  The nearest control decides.  A click resolves to a submitter
    exactly when the first [input] or [button] among the target (or, for a
    node that is no element, its parent element) and its ancestors has type
    [submit]; the submitter is then that control.  A control of another
    type hides every submit control farther up, and a target that is no
    node, or no target at all, resolves to nothing. *)
Theorem findSubmitter_nearest_control (target : option EventTarget)
    (c : Element) :
  findSubmitterFromClickTarget target = Some c <->
  exists nearer farther,
    click_chain target = nearer ++ c :: farther /\
    Forall (fun e => input_or_button e = false) nearer /\
    input_or_button c = true /\
    type c = Some "submit".
Proof.
  rewrite findSubmitter_find. split.
  - destruct (List.find input_or_button (click_chain target)) as [c'|] eqn:Hf;
      [|done].
    case_bool_decide as Ht; [|done]. intros [= ->].
    apply find_Some_nearest in Hf as (nearer & farther & Hl & Hn & Hc).
    by exists nearer, farther.
  - intros (nearer & farther & Hl & Hn & Hc & Ht).
    assert (List.find input_or_button (click_chain target) = Some c) as ->.
    { apply find_Some_nearest. by exists nearer, farther. }
    by rewrite bool_decide_eq_true_2.
Qed.

Lemma capture_all_snoc clicks click m :
  capture_all (clicks ++ [click]) m = clickCaptured click (capture_all clicks m).
Proof. unfold capture_all. by rewrite foldl_app. Qed.

Lemma clickCaptured_other_form click m f :
  (forall s, findSubmitterFromClickTarget (target click) = Some s ->
             form s <> Some f) ->
  clickCaptured click m !! f = m !! f.
Proof.
  intros Hother. unfold clickCaptured.
  destruct (findSubmitterFromClickTarget (target click)) as [s|]; [|done].
  specialize (Hother s eq_refl).
  destruct (form s) as [f'|]; [|done].
  rewrite lookup_insert_ne; [done|congruence].
Qed.

Lemma capture_all_other_forms clicks m f :
  Forall (fun click => forall s,
            findSubmitterFromClickTarget (target click) = Some s ->
            form s <> Some f) clicks ->
  capture_all clicks m !! f = m !! f.
Proof.
  intros Hall. revert m. unfold capture_all.
  induction Hall as [|click clicks Hc _ IH]; intros m; simpl; [done|].
  rewrite IH. by apply clickCaptured_other_form.
Qed.

(** X18.  Round trip.  After a click on a submit control of a form, the
    [submitter] of a submit event on that form is that control: earlier
    clicks do not matter (the last one wins), nor do later clicks that
    resolve to no submitter or to a control of another form. *)
Theorem submitter_is_last_captured (earlier later : list Event)
    (click submit : Event) (s fe : Element) (ancestors : list Node)
    (m : gmap nat Element) :
  findSubmitterFromClickTarget (target click) = Some s ->
  form s = Some (id fe) ->
  Forall (fun ev => forall s',
            findSubmitterFromClickTarget (target ev) = Some s' ->
            form s' <> Some (id fe)) later ->
  event_type submit = "submit" ->
  target submit = Some (NodeTarget (IsElement fe) ancestors) ->
  localName fe = "form" ->
  submitter submit (capture_all (earlier ++ click :: later) m) = Some s.
Proof.
  intros Hs Hf Hlater Hty Htg Hform.
  unfold submitter. rewrite Htg, Hty, Hform. simpl.
  unfold capture_all. rewrite foldl_app. simpl.
  fold (capture_all earlier m).
  match goal with |- foldl ?g ?m0 later !! _ = _ =>
    change (capture_all later m0 !! id fe = Some s)
  end.
  rewrite capture_all_other_forms by done.
  unfold clickCaptured. rewrite Hs, Hf. apply lookup_insert_eq.
Qed.

Lemma submitter_is_last_captured_witness :
  submitter submit_of_form
    (capture_all ([click_in_input] ++ click_on_label :: [click_in_input]) ∅)
  = Some save_button.
Proof.
  apply (submitter_is_last_captured [click_in_input] [click_in_input]
           click_on_label submit_of_form save_button the_form [NotElement 0] ∅);
    try reflexivity.
  repeat constructor. intros s'. vm_compute. discriminate.
Defined.

Lemma capture_all_origin clicks f s :
  capture_all clicks ∅ !! f = Some s ->
  exists click, click ∈ clicks /\
    findSubmitterFromClickTarget (target click) = Some s /\ form s = Some f.
Proof.
  induction clicks as [|click clicks IH] using rev_ind; [done|].
  assert (forall c, c ∈ clicks -> c ∈ clicks ++ [click]) as Hearlier
    by (intros c Hc; apply elem_of_app; by left).
  assert (click ∈ clicks ++ [click]) as Hlast
    by (apply elem_of_app; right; by apply list_elem_of_singleton).
  rewrite capture_all_snoc. unfold clickCaptured.
  destruct (findSubmitterFromClickTarget (target click)) as [s'|] eqn:Hs';
    cycle 1.
  { intros (c & Hin & Hres)%IH. exists c. auto. }
  destruct (form s') as [f'|] eqn:Hf'; cycle 1.
  { intros (c & Hin & Hres)%IH. exists c. auto. }
  destruct (decide (f' = f)) as [->|Hne].
  - rewrite lookup_insert_eq. intros [= ->]. by exists click.
  - rewrite lookup_insert_ne by done.
    intros (c & Hin & Hres)%IH. exists c. auto.
Qed.

(** X19.  The getter invents nothing.  Starting from an empty map, whatever
    [submitter] returns for an event is a control of type [submit] that a
    captured click resolved to and whose form is the event's target; and
    the event is a submit event on a form element. *)
Theorem submitter_was_clicked (clicks : list Event) (submit : Event)
    (s : Element) :
  submitter submit (capture_all clicks ∅) = Some s ->
  event_type submit = "submit" /\
  type s = Some "submit" /\
  exists click fe ancestors,
    click ∈ clicks /\
    findSubmitterFromClickTarget (target click) = Some s /\
    target submit = Some (NodeTarget (IsElement fe) ancestors) /\
    localName fe = "form" /\
    form s = Some (id fe).
Proof.
  unfold submitter.
  destruct (target submit) as [[[fe|i] ancestors|]|] eqn:Htg; try done.
  destruct (bool_decide (event_type submit = "submit")) eqn:Hty; [|done].
  destruct (bool_decide (localName fe = "form")) eqn:Hform; [|done].
  simpl. intros (click & Hin & Hs & Hf)%capture_all_origin.
  apply bool_decide_eq_true in Hty, Hform.
  split; [done|]. split; [by eapply findSubmitter_type|].
  by exists click, fe, ancestors.
Qed.

Lemma submitter_was_clicked_witness :
  event_type submit_of_form = "submit" /\
  type save_button = Some "submit" /\
  exists click fe ancestors,
    click ∈ [click_in_input; click_on_label] /\
    findSubmitterFromClickTarget (target click) = Some save_button /\
    target submit_of_form = Some (NodeTarget (IsElement fe) ancestors) /\
    localName fe = "form" /\
    form save_button = Some (id fe).
Proof.
  apply (submitter_was_clicked [click_in_input; click_on_label] submit_of_form
           save_button).
  reflexivity.
Defined.


End PolyfillProperties.
